(** * Enviro-chamber controller: a shallow embedding of [main_enviro.cpp]

  The controller runs three FreeRTOS tasks on an ESP32 (a web front end,
  a thermocouple reader and a bang-bang heater driver) which exchange two
  16-bit values through [Share<int16_t>] objects.  This file embeds, as
  executable Rocq functions, the parts of the second (complete) program of
  [main_enviro.cpp] that its specification talks about:

  - [enterStringWithEcho], the serial line reader;
  - [readFile], [writeFile], the [/get] request handler and the periodic
    loop of [task_WiFi];
  - [task_heater], [task_sensor] and [setup];
  - the lock-protected single slot behind [Share<int16_t>].

  Integers are [Z] with the C++ conversions written out.  Tasks that never
  return are run for a bounded number of iterations: the bound is either an
  explicit [nat] or the length of the list of inputs the environment
  supplies (pin levels, samples, snapshots of the shares). *)

From stdpp Require Import gmap strings list.
From Stdlib Require Import ZArith Lia Ascii String.

Local Open Scope Z_scope.

(** ** Fixed-width integers *)

Module Int.

(** Conversion to [uint8_t]: reduction modulo 2^8. *)
Definition uint8 (z : Z) : Z := z mod 256.

(** Conversion to a signed type of [2 * half] values. *)
Definition signed (half z : Z) : Z :=
  let u := z mod (2 * half) in
  if u <? half then u else u - 2 * half.

(** Conversion to [int16_t]. *)
Definition int16 (z : Z) : Z := signed 32768 z.

(** Conversion to [int] (32 bits on the ESP32). *)
Definition int32 (z : Z) : Z := signed 2147483648 z.

Definition in_int16 (z : Z) : Prop := -32768 <= z <= 32767.

End Int.

(** ** [enterStringWithEcho]

  The stream is the list of results of the successive [stream.read()]
  calls: a byte, or [-1] when nothing is there.  The caller's buffer is a
  list of bytes; a store past its end is undefined behaviour in C++, so
  the buffer list is left as it is there and every store is kept, in
  order, in [stores], where an index can be compared with the length. *)

Module Echo.

Record state := mk_state {
  count   : Z;             (* uint8_t count *)
  buffer  : list Z;        (* char* buffer *)
  stores  : list (Z * Z);  (* every buffer[i] = v, oldest first *)
  echoed  : list Z;        (* bytes printed back on the stream *)
  yields  : Z              (* number of vTaskDelay (1) calls *)
}.

Definition start (buf : list Z) : state :=
  mk_state 0 buf [] [] 0.

Definition echo (ch : Z) (st : state) : state :=
  mk_state (count st) (buffer st) (stores st)
           (echoed st ++ [Int.uint8 ch]) (yields st).

Definition set_count (c : Z) (st : state) : state :=
  mk_state c (buffer st) (stores st) (echoed st) (yields st).

(** [buffer[i] = v] *)
Definition store (i v : Z) (st : state) : state :=
  mk_state (count st) (<[Z.to_nat i := v]> (buffer st))
           (stores st ++ [(i, v)]) (echoed st) (yields st).

Definition yield (st : state) : state :=
  mk_state (count st) (buffer st) (stores st) (echoed st) (yields st + 1).

(** A store lands outside a buffer of [len] bytes. *)
Definition out_of_bounds (len : nat) (i : Z) : Prop := Z.of_nat len <= i.

Inductive outcome :=
| Returned (st : state) (rest : list Z)   (* the function returned *)
| Reading (st : state).                   (* still in [while (true)] *)

Definition BS : Z := 8.    (* '\b' *)
Definition LF : Z := 10.   (* '\n' *)
Definition CR : Z := 13.   (* '\r' *)

Fixpoint loop (size : Z) (input : list Z) (st : state) : outcome :=
  match input with
  | [] => Reading st
  | ch_in :: rest =>
      if ch_in >? 0 then
        let st := echo ch_in st in
        if (ch_in =? BS) && negb (count st =? 0) then
          loop size rest (set_count (Int.uint8 (count st - 2)) st)
        else if ch_in =? CR then
          loop size rest st
        else if (ch_in =? LF) || (count st >=? size - 1) then
          Returned (store (count st) 0 st) rest
        else
          loop size rest
               (set_count (Int.uint8 (count st + 1))
                          (store (count st) (Int.uint8 ch_in) st))
      else
        loop size rest (yield st)
  end.

Definition enterStringWithEcho (input : list Z) (buf : list Z) (size : Z)
  : outcome :=
  loop size input (start buf).

(** The state reached so far, whether the function has returned or not. *)
Definition state_of (o : outcome) : state :=
  match o with Returned st _ => st | Reading st => st end.

Definition returned (o : outcome) : bool :=
  match o with Returned _ _ => true | Reading _ => false end.

End Echo.

(** ** [Share<int16_t>] *)

Module Share.

(** Modelled from the spec: the class template [Share<T>] of [taskshare.h],
  which [main_enviro.cpp] includes and which is not among the sources.  The
  spec describes a single slot with a has-been-written flag; [write]
  overwrites the stored value and sets the flag, and [read] copies the
  current value out and tells whether a value had ever been written.
  What a reader finds in a slot that was never written is not settled by
  the sources nor by the spec, which offers both [read() -> Option<T>]
  and [read(out: &mut T) -> bool]: [fresh] and [get] below take the
  second form with a zeroed slot, [get_if_written] further down takes
  the first, and the two agree on every share that was written. *)
Record t := mk { the_data : Z; has_value : bool }.

(** [Share<int16_t> s ("name");] *)
Definition fresh : t := mk 0 false.

(** [s.put (v)]: the argument is converted to [int16_t]. *)
Definition put (v : Z) (s : t) : t := mk (Int.int16 v) true.

(** The spec's [read]: the copy of the slot and the flag. *)
Definition read (s : t) : Z * bool := (the_data s, has_value s).

(** [s.get (recv)], as [main_enviro.cpp] calls it: a statement, whose only
  effect is on [recv]; the new value of [recv] is returned. *)
Definition get (s : t) (recv : Z) : Z := fst (read s).

(** What a 16-bit slot can hold. *)
Definition wf (s : t) : Prop := Int.in_int16 (the_data s).

End Share.

(** ** Devices, events and the state the tasks share *)

(** The [float] a thermocouple conversion returns, as its 32-bit pattern;
  the program only prints it. *)
Definition float32 := Z.

Inductive pin_mode := INPUT | OUTPUT.

Inductive task_code := code_task_WiFi | code_task_sensor | code_task_heater.

Inductive event :=
| SerialBegin (baud : Z)
| SerialPrint (s : string)
| SerialPrintln (s : string)
| SerialPrintlnInt (z : Z)
| SerialPrintlnFloat (t : float32)
| PinMode (pin : Z) (m : pin_mode)
| DigitalWrite (pin : Z) (level : Z)
| ThermBegin (ok : bool)
| SetThermocoupleType
| SetConversionMode
| ReadThermocoupleTemperature (t : float32)
| Delay (ms : Z)
| VTaskDelay (ticks : Z)
| XTaskCreate (code : task_code) (name : string) (stack : Z) (priority : Z)
| HttpSend (status : Z) (content_type body : string).

Definition DRDY_PIN : Z := 25.
Definition HEATER_PIN : Z := 27.
Definition THRESHOLD : Z := 10.
Definition PARAM_INT : string := "inputInt".

Record world := mk_world {
  desired_temp : Share.t;          (* Share<int16_t> desired_temp *)
  temp_reading : Share.t;          (* Share<int16_t> temp_reading *)
  spiffs       : gmap string string;  (* files of the SPIFFS volume *)
  gpio         : gmap Z Z;         (* levels driven on output pins *)
  trace        : list event        (* what the program did, oldest first *)
}.

Definition boot : world := mk_world Share.fresh Share.fresh ∅ ∅ [].

Definition emit (e : event) (w : world) : world :=
  mk_world (desired_temp w) (temp_reading w) (spiffs w) (gpio w)
           (trace w ++ [e]).

(** Several events at once. *)
Definition log (evs : list event) (w : world) : world :=
  mk_world (desired_temp w) (temp_reading w) (spiffs w) (gpio w)
           (trace w ++ evs).

Definition set_desired_temp (s : Share.t) (w : world) : world :=
  mk_world s (temp_reading w) (spiffs w) (gpio w) (trace w).

Definition set_temp_reading (s : Share.t) (w : world) : world :=
  mk_world (desired_temp w) s (spiffs w) (gpio w) (trace w).

Definition set_spiffs (fs : gmap string string) (w : world) : world :=
  mk_world (desired_temp w) (temp_reading w) fs (gpio w) (trace w).

(** [digitalWrite (pin, level)] *)
Definition digitalWrite (pin level : Z) (w : world) : world :=
  emit (DigitalWrite pin level)
       (mk_world (desired_temp w) (temp_reading w) (spiffs w)
                 (<[pin := level]> (gpio w)) (trace w)).

(** ** [task_heater] *)

Record heater_locals := mk_locals {
  setpoint : Z;   (* int16_t setpoint *)
  current  : Z    (* int16_t current *)
}.

(** [int16_t setpoint = 20; int16_t current = 0;] *)
Definition heater_init : heater_locals := mk_locals 20 0.

(** [current < (setpoint - THRESHOLD)]: both operands are promoted to
  [int] and the subtraction is done there. *)
Definition heater_test (l : heater_locals) : bool :=
  current l <? Int.int32 (setpoint l - THRESHOLD).

(** One turn of the [for (;;)] of [task_heater]. *)
Definition heater_cycle (l : heater_locals) (w : world)
  : heater_locals * world :=
  let setpoint := Share.get (desired_temp w) (setpoint l) in
  let current := Share.get (temp_reading w) (current l) in
  let l := mk_locals setpoint current in
  let w := if heater_test l then digitalWrite HEATER_PIN 1 w
           else digitalWrite HEATER_PIN 0 w in
  (l, emit (VTaskDelay 100) w).

(** What other code does to the shares between two turns of the heater
  task. *)
Inductive write := WriteSetpoint (v : Z) | WriteReading (v : Z).

Definition apply_write (x : write) (w : world) : world :=
  match x with
  | WriteSetpoint v => set_desired_temp (Share.put v (desired_temp w)) w
  | WriteReading v => set_temp_reading (Share.put v (temp_reading w)) w
  end.

Definition apply_writes (xs : list write) (w : world) : world :=
  foldl (fun w x => apply_write x w) w xs.

(** The loop, one turn per element of [env]; the element lists the writes
  that reach the shares before that turn. *)
Fixpoint heater_loop (env : list (list write)) (l : heater_locals)
  (w : world) : heater_locals * world :=
  match env with
  | [] => (l, w)
  | xs :: env =>
      let '(l, w) := heater_cycle l (apply_writes xs w) in
      heater_loop env l w
  end.

Definition task_heater (env : list (list write)) (w : world)
  : heater_locals * world :=
  heater_loop env heater_init (emit (PinMode HEATER_PIN OUTPUT) w).

(** The levels written to the heater pin, oldest first. *)
Definition heater_commands (evs : list event) : list Z :=
  omap (fun e => match e with
                 | DigitalWrite pin level =>
                     if pin =? HEATER_PIN then Some level else None
                 | _ => None
                 end) evs.

Definition ON : Z := 1.
Definition OFF : Z := 0.

(** The level of the heater pin after a turn of the loop. *)
Definition heater_command (r : heater_locals * world) : option Z :=
  gpio (snd r) !! HEATER_PIN.

(** ** [task_sensor] *)

(** [while (digitalRead (DRDY_PIN)) { if (count++ > 200) { count = 0;
  Serial.print ("."); } }].  [levels] are the results of the successive
  [digitalRead] calls; [None] when they run out while the pin is still
  high, the loop then being still at work. *)
Fixpoint sensor_wait (levels : list bool) (count : Z) (w : world)
  : option (world * list bool) :=
  match levels with
  | [] => None
  | level :: levels =>
      if level then
        if count >? 200 then sensor_wait levels 0 (emit (SerialPrint ".") w)
        else sensor_wait levels (Int.int32 (count + 1)) w
      else Some (w, levels)
  end.

(** One turn of the [for (;;)] of [task_sensor], with the sample the
  thermocouple holds at that time. *)
Definition sensor_cycle (levels : list bool) (t : float32) (w : world)
  : option (world * list bool) :=
  match sensor_wait levels 0 w with
  | None => None
  | Some (w, levels) =>
      let w := emit (ReadThermocoupleTemperature t) w in
      let w := emit (SerialPrintlnFloat t) w in
      Some (emit (VTaskDelay 500) w, levels)
  end.

(** Where the wait of [sensor_wait] stands when the levels run out with
  the pin still high: the dots printed so far. *)
Fixpoint sensor_waiting (levels : list bool) (count : Z) (w : world)
  : world :=
  match levels with
  | [] => w
  | level :: levels =>
      if level then
        if count >? 200 then sensor_waiting levels 0 (emit (SerialPrint ".") w)
        else sensor_waiting levels (Int.int32 (count + 1)) w
      else w
  end.

(** The loop, one turn per sample, as far as the pin levels reach; a turn
  they leave in mid-wait has printed its dots and nothing more. *)
Fixpoint sensor_loop (samples : list float32) (levels : list bool)
  (w : world) : world :=
  match samples with
  | [] => w
  | t :: samples =>
      match sensor_cycle levels t w with
      | None => sensor_waiting levels 0 w
      | Some (w, levels) => sensor_loop samples levels w
      end
  end.

(** [while (1) delay (10);], for [n] turns. *)
Fixpoint sensor_halt (n : nat) (w : world) : world :=
  match n with
  | O => w
  | S n => sensor_halt n (emit (Delay 10) w)
  end.

(** [begin_ok] is the result of [therm1.begin ()]; [n] bounds the turns of
  the halting loop. *)
Definition task_sensor (begin_ok : bool) (n : nat) (samples : list float32)
  (levels : list bool) (w : world) : world :=
  let w := emit (PinMode DRDY_PIN INPUT) w in
  let w := emit (ThermBegin begin_ok) w in
  if negb begin_ok then
    sensor_halt n (emit (SerialPrintln "Could not initialize thermocouple.") w)
  else
    let w := emit SetThermocoupleType w in
    let w := emit SetConversionMode w in
    sensor_loop samples levels w.

(** ** [task_WiFi]: files, the [/get] handler and the periodic loop *)

Definition INPUT_FILE : string := "/inputInt.txt".

(** [readFile (SPIFFS, path)].  A file that cannot be opened is one the
  volume does not hold. *)
Definition readFile (path : string) (w : world) : string * world :=
  match spiffs w !! path with
  | None =>
      (EmptyString, emit (SerialPrintln "- empty file or failed to open file") w)
  | Some fileContent => (fileContent, w)
  end.

(** [writeFile (SPIFFS, path, message)]; [open_ok] tells whether the volume
  lets the file be opened for writing.  [file.print] returns the number of
  bytes written. *)
Definition writeFile (open_ok : bool) (path message : string) (w : world)
  : world :=
  if negb open_ok then
    emit (SerialPrintln "- failed to open file for writing") w
  else
    let w := set_spiffs (<[path := message]> (spiffs w)) w in
    if Z.of_nat (String.length message) =? 0
    then emit (SerialPrintln "- write failed") w
    else w.

Definition is_space (a : ascii) : bool :=
  let n := Z.of_nat (nat_of_ascii a) in
  (n =? 32) || ((9 <=? n) && (n <=? 13)).

Definition digit_of (a : ascii) : option Z :=
  let n := Z.of_nat (nat_of_ascii a) in
  if (48 <=? n) && (n <=? 57) then Some (n - 48) else None.

Fixpoint skip_spaces (s : string) : string :=
  match s with
  | String a r => if is_space a then skip_spaces r else s
  | EmptyString => s
  end.

Fixpoint digits (s : string) (acc : Z) : Z :=
  match s with
  | String a r =>
      match digit_of a with
      | Some d => digits r (10 * acc + d)
      | None => acc
      end
  | EmptyString => acc
  end.

(** [String::toInt ()] of the Arduino core, which is the C library's
  [atol]: leading white space, an optional sign, the longest run of
  digits, within the range of [long]; 0 when there is no digit. *)
Definition toInt (s : string) : Z :=
  let s := skip_spaces s in
  let v := match s with
           | String "-" r => - digits r 0
           | String "+" r => digits r 0
           | _ => digits s 0
           end in
  Z.max (-2147483648) (Z.min 2147483647 v).

Definition quote : string := String (ascii_of_nat 34) EmptyString.

(** The handler installed for [GET /get]; the request is the map of its
  query parameters. *)
Definition on_get (request : gmap string string) (open_ok : bool)
  (w : world) : world :=
  let inputParam := EmptyString in
  let '(inputMessage, w) :=
    match request !! PARAM_INT with
    | Some v => (v, writeFile open_ok INPUT_FILE v w)
    | None => ("No message sent"%string, w)
    end in
  let w := emit (SerialPrintln inputMessage) w in
  emit (HttpSend 200 "text/html"
          ("HTTP GET request sent to your ESP on input field ("
           +:+ inputParam +:+ ") with value: " +:+ inputMessage
           +:+ "<br><a href=" +:+ quote +:+ "/" +:+ quote
           +:+ ">Return to Home Page</a>")) w.

(** One turn of the [for (;;)] that ends [task_WiFi]. *)
Definition wifi_cycle (w : world) : world :=
  let '(fileContent, w) := readFile INPUT_FILE w in
  let yourInputInt := Int.int32 (toInt fileContent) in
  let w := emit (SerialPrint "*** Your inputInt: ") w in
  let w := emit (SerialPrintlnInt yourInputInt) w in
  (* desired_temp.put (yourInputInt) is commented out in the source *)
  emit (VTaskDelay 5000) w.

(** What reaches the ingest task from outside between two turns. *)
Inductive wifi_input :=
| Request (params : gmap string string) (open_ok : bool)
| Tick.

Definition wifi_step (i : wifi_input) (w : world) : world :=
  match i with
  | Request params open_ok => on_get params open_ok w
  | Tick => wifi_cycle w
  end.

(** The running part of [task_WiFi]: requests served and turns of the
  loop, in the order they happen. *)
Definition wifi_run (inputs : list wifi_input) (w : world) : world :=
  foldl (fun w i => wifi_step i w) w inputs.

(** ** [setup] *)

(** [mount_ok] is the result of [SPIFFS.begin (true)]. *)
Definition setup (mount_ok : bool) (w : world) : world :=
  if negb mount_ok then
    emit (SerialPrintln "An Error has occurred while mounting SPIFFS") w
  else
    let w := emit (SerialBegin 115200) w in
    let w := emit (Delay 1000) w in
    let w := emit (XTaskCreate code_task_WiFi "WiFi" 4500 1) w in
    let w := emit (XTaskCreate code_task_sensor "sensor" 1000 1) w in
    emit (XTaskCreate code_task_heater "heater" 1000 3) w.

(** The tasks handed to [xTaskCreate], with their priorities. *)
Definition created (evs : list event) : list (task_code * Z) :=
  omap (fun e => match e with
                 | XTaskCreate c _ _ p => Some (c, p)
                 | _ => None
                 end) evs.

Definition task_code_eqb (a b : task_code) : bool :=
  match a, b with
  | code_task_WiFi, code_task_WiFi
  | code_task_sensor, code_task_sensor
  | code_task_heater, code_task_heater => true
  | _, _ => false
  end.

Definition priority_of (c : task_code) (evs : list event) : option Z :=
  snd <$> List.find (fun x => task_code_eqb (fst x) c) (created evs).

(** The ticks a task sleeps at the end of each turn: the arguments of its
  [vTaskDelay] calls. *)
Definition sleeps (evs : list event) : list Z :=
  omap (fun e => match e with VTaskDelay n => Some n | _ => None end) evs.

(** ** The slot of a [Share<int16_t>] under concurrent access *)

Module Slot.

(** Modelled from the spec: the critical sections of [Share<T>::put] and
  [Share<T>::get] ([taskshare.h] is not among the sources).  The spec has
  [write] acquire the lock, overwrite the stored value, set the flag and
  release the lock, and [read] acquire the lock, copy the value out,
  release the lock and return the flag.  The 16-bit value is moved one
  byte at a time, so that a task can be preempted between the two bytes,
  and tasks are interleaved by an arbitrary schedule; a task that finds
  the lock taken makes no progress on its turn. *)
Record mem := mk_mem {
  lo    : Z;            (* low byte of the stored value *)
  hi    : Z;            (* high byte of the stored value *)
  flag  : bool;         (* has been written at least once *)
  owner : option nat    (* the task inside a critical section *)
}.

Inductive op := Write (v : Z) | Read.

Inductive pc :=
| Idle                  (* between two calls *)
| WLo (v : Z)           (* write: lock held, low byte to store *)
| WHi (v : Z)           (* write: high byte to store *)
| WFlag (v : Z)         (* write: flag to set, lock to release *)
| RLo                   (* read: lock held, low byte to load *)
| RHi (l : Z)           (* read: high byte to load *)
| RFlag (l h : Z).      (* read: flag to load, lock to release *)

Record thread := mk_thread {
  at_pc   : pc;
  todo    : list op;            (* calls still to make *)
  results : list (Z * bool)     (* what its reads returned, latest first *)
}.

Record state := mk_state {
  memory    : mem;
  threads   : list thread;
  completed : list Z     (* values of the writes that have returned *)
}.

Definition byte0 (v : Z) : Z := v mod 256.
Definition byte1 (v : Z) : Z := (v / 256) mod 256.
Definition decode (l h : Z) : Z := Int.int16 (l + 256 * h).

Definition update (i : nat) (t : thread) (m : mem) (st : state) : state :=
  mk_state m (<[i := t]> (threads st)) (completed st).

(** One step of task [i]; [None] when it cannot move (no such task,
  nothing left to do, or the lock is taken). *)
Definition step (i : nat) (st : state) : option state :=
  let m := memory st in
  match threads st !! i with
  | None => None
  | Some t =>
      match at_pc t with
      | Idle =>
          match owner m, todo t with
          | None, Write v :: ops =>
              Some (update i (mk_thread (WLo v) ops (results t))
                           (mk_mem (lo m) (hi m) (flag m) (Some i)) st)
          | None, Read :: ops =>
              Some (update i (mk_thread RLo ops (results t))
                           (mk_mem (lo m) (hi m) (flag m) (Some i)) st)
          | _, _ => None
          end
      | WLo v =>
          Some (update i (mk_thread (WHi v) (todo t) (results t))
                       (mk_mem (byte0 v) (hi m) (flag m) (owner m)) st)
      | WHi v =>
          Some (update i (mk_thread (WFlag v) (todo t) (results t))
                       (mk_mem (lo m) (byte1 v) (flag m) (owner m)) st)
      | WFlag v =>
          Some (mk_state (mk_mem (lo m) (hi m) true None)
                         (<[i := mk_thread Idle (todo t) (results t)]>
                            (threads st))
                         (Int.int16 v :: completed st))
      | RLo =>
          Some (update i (mk_thread (RHi (lo m)) (todo t) (results t)) m st)
      | RHi l =>
          Some (update i (mk_thread (RFlag l (hi m)) (todo t) (results t))
                       m st)
      | RFlag l h =>
          Some (update i (mk_thread Idle (todo t)
                                    ((decode l h, flag m) :: results t))
                       (mk_mem (lo m) (hi m) (flag m) None) st)
      end
  end.

Fixpoint run (sched : list nat) (st : state) : state :=
  match sched with
  | [] => st
  | i :: sched => run sched (default st (step i st))
  end.

(** A slot never written, holding whatever bytes its storage held, and one
  task per program. *)
Definition init (l0 h0 : Z) (progs : list (list op)) : state :=
  mk_state (mk_mem l0 h0 false None)
           ((fun ops => mk_thread Idle ops []) <$> progs) [].

(** The same two calls with the lock left out, to see what it is for. *)
Definition step_unlocked (i : nat) (st : state) : option state :=
  let m := memory st in
  match threads st !! i with
  | None => None
  | Some t =>
      match at_pc t, todo t with
      | Idle, Write v :: ops =>
          Some (update i (mk_thread (WLo v) ops (results t)) m st)
      | Idle, Read :: ops =>
          Some (update i (mk_thread RLo ops (results t)) m st)
      | Idle, [] => None
      | _, _ => step i st
      end
  end.

End Slot.

(** With the lock left out, for comparison. *)
Fixpoint run_unlocked (sched : list nat) (st : Slot.state) : Slot.state :=
  match sched with
  | [] => st
  | i :: sched => run_unlocked sched (default st (Slot.step_unlocked i st))
  end.

(** Scenario A of the specification: the setpoint is 20 and the readings
  5, 9, 10, 11 and 25 arrive one per turn of the heater task. *)
Definition scenario_A : list (list write) :=
  [[WriteSetpoint 20; WriteReading 5]; [WriteReading 9]; [WriteReading 10];
   [WriteReading 11]; [WriteReading 25]].

(** ** The invariant of the locked slot

  [stable]: the two bytes in memory are those of a write that has
  returned, once the flag is set.  [pc_ok] ties the place a task is at to
  the lock and to the bytes it has moved so far.  [P] holds of the values
  the tasks were asked to write. *)

Definition stable (st : Slot.state) : Prop :=
  Slot.flag (Slot.memory st) = true ->
  In (Slot.decode (Slot.lo (Slot.memory st)) (Slot.hi (Slot.memory st)))
     (Slot.completed st).

Definition pc_ok (st : Slot.state) (j : nat) (p : Slot.pc) : Prop :=
  let m := Slot.memory st in
  match p with
  | Slot.Idle => Slot.owner m <> Some j
  | Slot.WLo v => Slot.owner m = Some j
  | Slot.WHi v => Slot.owner m = Some j /\ Slot.lo m = Slot.byte0 v
  | Slot.WFlag v =>
      Slot.owner m = Some j /\ Slot.lo m = Slot.byte0 v /\
      Slot.hi m = Slot.byte1 v
  | Slot.RLo => Slot.owner m = Some j /\ stable st
  | Slot.RHi l => Slot.owner m = Some j /\ stable st /\ l = Slot.lo m
  | Slot.RFlag l h =>
      Slot.owner m = Some j /\ stable st /\ l = Slot.lo m /\ h = Slot.hi m
  end.

Definition requested (P : Z -> Prop) (t : Slot.thread) : Prop :=
  (forall v, In (Slot.Write v) (Slot.todo t) -> P v) /\
  match Slot.at_pc t with
  | Slot.WLo v | Slot.WHi v | Slot.WFlag v => P v
  | _ => True
  end.

(** Every read that returned with the flag set returned the value of a
  write that had returned before. *)
Definition results_ok (st : Slot.state) (t : Slot.thread) : Prop :=
  forall v b, In (v, b) (Slot.results t) -> b = true ->
              In v (Slot.completed st).

Definition inv (P : Z -> Prop) (st : Slot.state) : Prop :=
  (forall j t, Slot.threads st !! j = Some t ->
               pc_ok st j (Slot.at_pc t) /\ requested P t /\ results_ok st t) /\
  (Slot.owner (Slot.memory st) = None -> stable st) /\
  (forall v, In v (Slot.completed st) -> exists x, P x /\ v = Int.int16 x).

(** ** More of the program: what is typed, the two calls that read the
  credentials, the template processor, and the three tasks side by side *)

(** An ordinary character for [enterStringWithEcho]: a byte that is there
  and is none of backspace, carriage return and line feed. *)
Definition plain (c : Z) : bool :=
  (c >? 0) && negb (c =? Echo.BS) && negb (c =? Echo.CR)
  && negb (c =? Echo.LF).

(** An ordinary character as [stream.read ()] delivers it: one byte. *)
Definition typed (c : Z) : bool := plain c && (c <=? 255).

(** What [enterStringWithEcho] passes over: a read that found nothing (or
  a NUL byte), and a carriage return. *)
Definition ignored (c : Z) : bool := (c <=? 0) || (c =? Echo.CR).

(** Storing ordinary characters one after the other, as the last branch
  of the loop does while there is room. *)
Fixpoint type_chars (chars : list Z) (st : Echo.state) : Echo.state :=
  match chars with
  | [] => st
  | c :: chars =>
      type_chars chars
        (Echo.set_count (Echo.count st + 1)
           (Echo.store (Echo.count st) (Int.uint8 c) (Echo.echo c st)))
  end.

(** The part of the stream the function left unread. *)
Definition echo_rest (o : Echo.outcome) : list Z :=
  match o with Echo.Returned _ rest => rest | Echo.Reading _ => [] end.

(** The C string a buffer holds: its bytes up to the first NUL. *)
Fixpoint cstring (buf : list Z) : list Z :=
  match buf with
  | [] => []
  | b :: buf => if b =? 0 then [] else b :: cstring buf
  end.

(** The indices of the stores all lie in [0, size - 1]. *)
Definition stores_within (size : Z) (st : Echo.state) : Prop :=
  Forall (fun s => 0 <= fst s <= size - 1) (Echo.stores st).

(** The part of the state of [enterStringWithEcho] that the string
  depends on. *)
Definition same_line (a b : Echo.state) : Prop :=
  Echo.count a = Echo.count b /\ Echo.buffer a = Echo.buffer b /\
  Echo.stores a = Echo.stores b.

(** [task_WiFi], the two calls that read the credentials:
  [char essid_buf[36]; char pw_buf[36];
   enterStringWithEcho (Serial, essid_buf, 34);
   enterStringWithEcho (Serial, pw_buf, 34);]
  The buffers are locals that start with whatever the stack holds. *)
Definition enter_credentials (input essid_buf pw_buf : list Z)
  : option (Echo.state * Echo.state * list Z) :=
  match Echo.enterStringWithEcho input essid_buf 34 with
  | Echo.Returned s1 rest =>
      match Echo.enterStringWithEcho rest pw_buf 34 with
      | Echo.Returned s2 rest => Some (s1, s2, rest)
      | Echo.Reading _ => None
      end
  | Echo.Reading _ => None
  end.

(** The two calls again, with the state each has reached whether or not
  it has returned; the second call starts when the first has returned. *)
Definition credentials_progress (input essid_buf pw_buf : list Z)
  : Echo.state * option Echo.state :=
  match Echo.enterStringWithEcho input essid_buf 34 with
  | Echo.Returned s1 rest =>
      (s1, Some (Echo.state_of (Echo.enterStringWithEcho rest pw_buf 34)))
  | Echo.Reading s1 => (s1, None)
  end.

(** Modelled from the spec: the other form of [read], [read() ->
  Option<T>], as [get (recv)] would follow it: nothing is copied out of
  a slot that was never written ([taskshare.h] is not among the
  sources). *)
Definition get_if_written (s : Share.t) (recv : Z) : Z :=
  if Share.has_value s then Share.the_data s else recv.

(** A [get] that does what every reading of the spec agrees on: from a
  share that was written it fetches the value written. *)
Definition fetches_written (get : Share.t -> Z -> Z) : Prop :=
  forall s recv, Share.has_value s = true -> get s recv = Share.the_data s.

(** One turn of the [for (;;)] of [task_heater], for any [get]. *)
Definition heater_cycle_with (get : Share.t -> Z -> Z)
  (l : heater_locals) (w : world) : heater_locals * world :=
  let setpoint := get (desired_temp w) (setpoint l) in
  let current := get (temp_reading w) (current l) in
  let l := mk_locals setpoint current in
  let w := if heater_test l then digitalWrite HEATER_PIN 1 w
           else digitalWrite HEATER_PIN 0 w in
  (l, emit (VTaskDelay 100) w).

(** [processor (var)] *)
Definition processor (var : string) (w : world) : string * world :=
  if String.eqb var "inputInt" then readFile INPUT_FILE w
  else (EmptyString, w).

(** [notFound (request)] *)
Definition notFound (w : world) : world :=
  emit (HttpSend 404 "text/plain" "Not found") w.

(** The samples a trace shows read, and the ones it shows printed. *)
Definition samples_read (evs : list event) : list float32 :=
  omap (fun e => match e with
                 | ReadThermocoupleTemperature t => Some t
                 | _ => None
                 end) evs.

Definition samples_printed (evs : list event) : list float32 :=
  omap (fun e => match e with
                 | SerialPrintlnFloat t => Some t
                 | _ => None
                 end) evs.

(** The pin levels of a run of sensor turns: for each turn, the number of
  polls that find data-ready high before the one that finds it low. *)
Definition drdy_levels (highs : list nat) : list bool :=
  List.concat (List.map (fun h => repeat true h ++ [false]) highs).

(** The three tasks side by side: what happens next is a turn of the
  heater loop, a turn of the sensor loop (after [highs] polls that find
  data-ready high) or something for the WiFi task. *)
Inductive sys_input :=
| HeaterTurn
| SensorTurn (highs : nat) (t : float32)
| WifiInput (i : wifi_input).

Definition sys_step (x : sys_input) (s : heater_locals * world)
  : heater_locals * world :=
  match x with
  | HeaterTurn => heater_cycle (fst s) (snd s)
  | SensorTurn highs t =>
      match sensor_cycle (repeat true highs ++ [false]) t (snd s) with
      | Some (w, _) => (fst s, w)
      | None => s
      end
  | WifiInput i => (fst s, wifi_step i (snd s))
  end.

Definition system_run (xs : list sys_input) (s : heater_locals * world)
  : heater_locals * world :=
  foldl (fun s x => sys_step x s) s xs.

(** The number of turns of the heater loop in a run. *)
Definition heater_turns (xs : list sys_input) : nat :=
  List.length (List.filter (fun x => match x with
                                     | HeaterTurn => true
                                     | _ => false
                                     end) xs).

(** * Verification *)

(** ** Integer conversions *)

Lemma signed_id half z :
  0 < half -> - half <= z < half -> Int.signed half z = z.
Proof.
  intros Hh Hz. unfold Int.signed.
  destruct (Z_lt_dec z 0) as [Hneg | Hpos].
  - replace (z mod (2 * half)) with (z + 2 * half).
    + destruct (Z.ltb_spec (z + 2 * half) half); lia.
    + apply Z.mod_unique with (q := -1); lia.
  - rewrite Z.mod_small by lia.
    destruct (Z.ltb_spec z half); lia.
Qed.

Lemma signed_range half z : 0 < half -> - half <= Int.signed half z < half.
Proof.
  intros Hh. unfold Int.signed.
  pose proof (Z.mod_pos_bound z (2 * half) ltac:(lia)).
  destruct (Z.ltb_spec (z mod (2 * half)) half); lia.
Qed.

Lemma int16_id z : Int.in_int16 z -> Int.int16 z = z.
Proof. unfold Int.in_int16, Int.int16. intros. apply signed_id; lia. Qed.

Lemma int16_range z : Int.in_int16 (Int.int16 z).
Proof.
  unfold Int.in_int16, Int.int16.
  pose proof (signed_range 32768 z ltac:(lia)). lia.
Qed.

Lemma int32_id z : -2147483648 <= z < 2147483648 -> Int.int32 z = z.
Proof. unfold Int.int32. intros. apply signed_id; lia. Qed.

Lemma put_wf v s : Share.wf (Share.put v s).
Proof. apply int16_range. Qed.

(** ** [enterStringWithEcho] *)

Section EchoSteps.

Variables (size : Z) (rest : list Z).

(** The branch that stores a character. *)
Lemma loop_accept ch st :
  0 < ch -> ch <> Echo.CR -> ch <> Echo.LF ->
  ch <> Echo.BS \/ Echo.count st = 0 ->
  Echo.count st < size - 1 ->
  Echo.loop size (ch :: rest) st =
  Echo.loop size rest
    (Echo.set_count (Int.uint8 (Echo.count st + 1))
       (Echo.store (Echo.count st) (Int.uint8 ch) (Echo.echo ch st))).
Proof.
  intros Hpos Hcr Hlf Hbs Hroom. cbn [Echo.loop].
  destruct (Z.gtb_spec ch 0); [| lia].
  replace ((ch =? Echo.BS) && negb (Echo.count (Echo.echo ch st) =? 0))
    with false.
  2:{ symmetry. apply andb_false_iff. cbn [Echo.echo Echo.count].
      destruct Hbs as [Hbs | Hz].
      - left. now apply Z.eqb_neq.
      - right. rewrite Hz. reflexivity. }
  destruct (Z.eqb_spec ch Echo.CR); [contradiction |].
  destruct (Z.eqb_spec ch Echo.LF); [contradiction |].
  cbn [Echo.echo Echo.count orb].
  destruct (Z.geb_spec (Echo.count st) (size - 1)); [lia | reflexivity].
Qed.

(** The backspace branch. *)
Lemma loop_backspace st :
  Echo.count st <> 0 ->
  Echo.loop size (Echo.BS :: rest) st =
  Echo.loop size rest
    (Echo.set_count (Int.uint8 (Echo.count st - 2)) (Echo.echo Echo.BS st)).
Proof.
  intros Hc. cbn [Echo.loop]. change (Echo.BS >? 0) with true. cbv iota.
  rewrite Z.eqb_refl. cbn [Echo.echo Echo.count andb].
  destruct (Z.eqb_spec (Echo.count st) 0); [contradiction | reflexivity].
Qed.

(** The branch that ends the string. *)
Lemma loop_terminate ch st :
  0 < ch -> ch <> Echo.BS -> ch <> Echo.CR ->
  ch = Echo.LF \/ size - 1 <= Echo.count st ->
  Echo.loop size (ch :: rest) st =
  Echo.Returned (Echo.store (Echo.count st) 0 (Echo.echo ch st)) rest.
Proof.
  intros Hpos Hbs Hcr Hend. cbn [Echo.loop].
  destruct (Z.gtb_spec ch 0); [| lia].
  destruct (Z.eqb_spec ch Echo.BS); [contradiction |].
  destruct (Z.eqb_spec ch Echo.CR); [contradiction |].
  cbn [andb Echo.echo Echo.count].
  replace ((ch =? Echo.LF) || (Echo.count st >=? size - 1)) with true;
    [reflexivity |].
  symmetry. apply orb_true_iff. destruct Hend as [-> | Hge].
  - left. reflexivity.
  - right. destruct (Z.geb_spec (Echo.count st) (size - 1)); [easy | lia].
Qed.

End EchoSteps.

(** C10.  A first character followed by a backspace takes the 8-bit counter
  of [enterStringWithEcho] from 1 to 255; the character after that (one
  that is neither a backspace nor a carriage return) passes the test
  [count >= size - 1] whatever [size] is, the function returns, and its
  last store is the terminating NUL at index 255, which lies outside every
  buffer of fewer than 256 bytes. *)
Theorem enterStringWithEcho_count_wraps (c x size : Z) (buf rest : list Z) :
  2 <= size <= 255 ->
  0 < c -> c <> Echo.CR -> c <> Echo.LF ->
  0 < x -> x <> Echo.BS -> x <> Echo.CR ->
  Echo.enterStringWithEcho [c] buf size
    = Echo.Reading (Echo.mk_state 1 (<[0%nat := Int.uint8 c]> buf)
                      [(0, Int.uint8 c)] [Int.uint8 c] 0) /\
  (exists st2,
      Echo.enterStringWithEcho [c; Echo.BS] buf size = Echo.Reading st2 /\
      Echo.count st2 = 255 /\ Int.uint8 (1 - 2) = 255 /\
      (Echo.count st2 >=? size - 1) = true) /\
  (exists st3,
      Echo.enterStringWithEcho (c :: Echo.BS :: x :: rest) buf size
        = Echo.Returned st3 rest /\
      Echo.stores st3 = [(0, Int.uint8 c); (255, 0)] /\
      ((List.length buf < 256)%nat ->
       Echo.out_of_bounds (List.length buf) 255 /\
       Echo.buffer st3 = <[0%nat := Int.uint8 c]> buf)).
Proof.
  intros Hsize Hc Hccr Hclf Hx Hxbs Hxcr.
  unfold Echo.enterStringWithEcho.
  split; [| split].
  - rewrite loop_accept by (cbn; auto; lia). reflexivity.
  - eexists. rewrite loop_accept by (cbn; auto; lia).
    rewrite loop_backspace by (cbn; discriminate).
    split; [reflexivity |]. cbn.
    repeat split; try reflexivity.
    change (Int.uint8 (0 + 1) - 2) with (-1).
    change (Int.uint8 (-1)) with 255.
    destruct (Z.geb_spec 255 (size - 1)); [reflexivity | lia].
  - eexists. rewrite loop_accept by (cbn; auto; lia).
    rewrite loop_backspace by (cbn; discriminate).
    rewrite loop_terminate; cbn; auto.
    + split; [reflexivity |]. split; [reflexivity |].
      intros Hlen. split.
      * unfold Echo.out_of_bounds. lia.
      * change (Int.uint8 (Int.uint8 (0 + 1) - 2)) with 255.
        apply list_insert_ge. cbn. rewrite length_insert. lia.
    + right. change (Int.uint8 (Int.uint8 (0 + 1) - 2)) with 255. lia.
Qed.

(** At the call of [task_WiFi]: a 36-byte buffer, [size] 34 and the three
  bytes [a], backspace, [x]. *)
Lemma enterStringWithEcho_count_wraps_witness :
  Echo.count (Echo.state_of
    (Echo.enterStringWithEcho [97; Echo.BS; 120] (repeat 0 36) 34)) = 255 /\
  exists st3,
    Echo.enterStringWithEcho [97; Echo.BS; 120] (repeat 0 36) 34
      = Echo.Returned st3 [] /\
    Echo.stores st3 = [(0, 97); (255, 0)] /\
    Echo.out_of_bounds 36 255.
Proof.
  split; [reflexivity |].
  destruct (enterStringWithEcho_count_wraps 97 120 34 (repeat 0 36) [])
    as (_ & _ & st3 & Hrun & Hstores & Hoob); try lia; try discriminate.
  exists st3. split; [exact Hrun |]. split; [exact Hstores |].
  apply Hoob. cbn. lia.
Defined.

(** ** [task_heater] *)

(** The locals after a turn are what the two shares hold; the values the
  locals had before the turn play no part. *)
Lemma heater_cycle_locals l w :
  fst (heater_cycle l w)
  = mk_locals (Share.the_data (desired_temp w))
              (Share.the_data (temp_reading w)).
Proof. reflexivity. Qed.

Lemma heater_test_spec l :
  Int.in_int16 (setpoint l) ->
  heater_test l = true <-> current l < setpoint l - THRESHOLD.
Proof.
  unfold heater_test, Int.in_int16, THRESHOLD. intros Hs.
  rewrite int32_id by lia. apply Z.ltb_lt.
Qed.

Lemma heater_command_test l w :
  heater_command (heater_cycle l w)
  = Some (if heater_test (fst (heater_cycle l w)) then ON else OFF).
Proof.
  unfold heater_command, heater_cycle. cbn [fst snd].
  destruct (heater_test _); cbn; apply lookup_insert_eq.
Qed.

(** A turn leaves both shares as they were. *)
Lemma heater_cycle_shares l w :
  desired_temp (snd (heater_cycle l w)) = desired_temp w /\
  temp_reading (snd (heater_cycle l w)) = temp_reading w.
Proof. unfold heater_cycle. cbn [snd]. destruct (heater_test _); now cbn. Qed.

(** What a turn drives on the heater pin, in terms of what the shares
  hold. *)
Lemma heater_command_spec l w :
  Share.wf (desired_temp w) ->
  (heater_command (heater_cycle l w) = Some ON
   <-> Share.the_data (temp_reading w)
       < Share.the_data (desired_temp w) - THRESHOLD) /\
  (heater_command (heater_cycle l w) = Some OFF
   <-> ~ Share.the_data (temp_reading w)
         < Share.the_data (desired_temp w) - THRESHOLD).
Proof.
  intros Hwf.
  rewrite heater_command_test, heater_cycle_locals.
  pose proof (heater_test_spec
                (mk_locals (Share.the_data (desired_temp w))
                           (Share.the_data (temp_reading w))) Hwf) as Ht.
  cbn [setpoint current] in Ht.
  destruct (heater_test _).
  - split.
    + split; [intros _; now apply Ht | reflexivity].
    + split; [discriminate | intros Hn; exfalso; apply Hn; now apply Ht].
  - assert (~ Share.the_data (temp_reading w)
              < Share.the_data (desired_temp w) - THRESHOLD) as Hn.
    { intros Hlt. apply Ht in Hlt. discriminate. }
    split.
    + split; [discriminate | intros Hlt; contradiction].
    + split; [intros _; exact Hn | reflexivity].
Qed.

(** C1, as amended.  In every turn of the heater task, with S and R the
  setpoint and the reading it has just fetched, the heater pin is driven
  ON exactly when R < S - THRESHOLD and OFF otherwise; with setpoint 20
  the readings 5, 9, 10, 11, 25 give ON, ON, OFF, OFF, OFF, the reading
  10 = S - THRESHOLD giving OFF. *)
Theorem heater_cycle_hysteresis (l : heater_locals) (w : world) :
  Share.wf (desired_temp w) ->
  let r := heater_cycle l w in
  let S := setpoint (fst r) in
  let R := current (fst r) in
  S = Share.the_data (desired_temp w) /\
  R = Share.the_data (temp_reading w) /\
  THRESHOLD = 10 /\
  (heater_command r = Some ON <-> R < S - THRESHOLD) /\
  (heater_command r = Some OFF <-> ~ R < S - THRESHOLD) /\
  heater_commands (trace (snd (task_heater scenario_A boot)))
    = [ON; ON; OFF; OFF; OFF].
Proof.
  intros Hwf r S R. subst r S R.
  rewrite heater_cycle_locals. cbn [setpoint current].
  destruct (heater_command_spec l w Hwf) as [Hon Hoff].
  repeat split; try reflexivity; try apply Hon; try apply Hoff.
Qed.

(** The boundary turn of scenario A: setpoint 20, reading 10. *)
Lemma heater_cycle_hysteresis_witness :
  let w := apply_writes [WriteSetpoint 20; WriteReading 10] boot in
  Share.wf (desired_temp w) /\
  (heater_command (heater_cycle heater_init w) = Some OFF
   <-> ~ 10 < 20 - THRESHOLD).
Proof.
  intros w.
  assert (Share.wf (desired_temp w)) as Hwf by (cbv; split; discriminate).
  split; [exact Hwf |].
  exact (proj1 (proj2 (proj2 (proj2 (proj2
           (heater_cycle_hysteresis heater_init w Hwf)))))).
Defined.

(** C1 as it was stated fails: the third command of scenario A is OFF. *)
Lemma scenario_A_not_on_at_boundary :
  heater_commands (trace (snd (task_heater scenario_A boot)))
    <> [ON; ON; ON; OFF; OFF].
Proof. vm_compute. discriminate. Qed.

(** What [get] does with a share that was written is all that a turn of
  the heater task needs to be known of it: for every such [get] a turn
  on written shares is the turn of [heater_cycle]. *)
Lemma heater_cycle_with_written get l w :
  fetches_written get ->
  Share.has_value (desired_temp w) = true ->
  Share.has_value (temp_reading w) = true ->
  heater_cycle_with get l w = heater_cycle l w.
Proof.
  intros Hget Hd Ht. unfold heater_cycle_with, heater_cycle, Share.get.
  cbn [Share.read fst]. now rewrite (Hget _ _ Hd), (Hget _ _ Ht).
Qed.

Lemma get_fetches_written :
  fetches_written Share.get /\ fetches_written get_if_written.
Proof.
  split; intros s recv Hs; [reflexivity |].
  unfold get_if_written. now rewrite Hs.
Qed.

(** What a turn does while a share was never written is decided by
  [taskshare.h]: at start-up, with both shares unwritten, a [get] that
  copies the zeroed slot gives setpoint 0, reading 0 and the heater off,
  and a [get] that copies nothing gives setpoint 20, reading 0 and the
  heater on. *)
Lemma unwritten_shares_depend_on_get :
  heater_cycle_with Share.get heater_init boot = heater_cycle heater_init boot /\
  fst (heater_cycle_with Share.get heater_init boot) = mk_locals 0 0 /\
  heater_command (heater_cycle_with Share.get heater_init boot) = Some OFF /\
  fst (heater_cycle_with get_if_written heater_init boot) = mk_locals 20 0 /\
  heater_command (heater_cycle_with get_if_written heater_init boot)
    = Some ON.
Proof. vm_compute. repeat split; reflexivity. Qed.

(** ** [task_sensor] *)

Lemma emit_log e w : emit e w = log [e] w.
Proof. reflexivity. Qed.

Lemma log_log a b w : log a (log b w) = log (b ++ a) w.
Proof. unfold log. cbn. now rewrite app_assoc. Qed.

Lemma log_nil w : log [] w = w.
Proof. destruct w. unfold log. cbn. now rewrite app_nil_r. Qed.

(** Waiting for data-ready only prints dots. *)
Lemma sensor_wait_ready highs : forall levels count w,
  0 <= count <= 201 ->
  exists dots,
    sensor_wait (repeat true highs ++ false :: levels) count w
    = Some (log (repeat (SerialPrint ".") dots) w, levels).
Proof.
  induction highs as [| highs IH]; intros levels count w Hc.
  - exists 0%nat. cbn. now rewrite log_nil.
  - cbn [repeat app sensor_wait].
    destruct (Z.gtb_spec count 200) as [Hgt | Hle].
    + destruct (IH levels 0 (emit (SerialPrint ".") w)) as [dots Hd]; [lia |].
      exists (Datatypes.S dots). rewrite Hd, emit_log, log_log. reflexivity.
    + rewrite int32_id by lia.
      destruct (IH levels (count + 1) w) as [dots Hd]; [lia |].
      exists dots. exact Hd.
Qed.

Lemma sensor_wait_log : forall levels count w w' rest,
  sensor_wait levels count w = Some (w', rest) ->
  exists dots, w' = log (repeat (SerialPrint ".") dots) w.
Proof.
  induction levels as [| level levels IH]; intros count w w' rest H.
  - discriminate.
  - cbn [sensor_wait] in H. destruct level.
    + destruct (count >? 200).
      * apply IH in H as [dots ->]. exists (Datatypes.S dots).
        now rewrite emit_log, log_log.
      * now apply IH in H.
    + injection H as <- _. exists 0%nat. now rewrite log_nil.
Qed.

Lemma sensor_cycle_log levels t w w' rest :
  sensor_cycle levels t w = Some (w', rest) ->
  exists dots,
    w' = log (repeat (SerialPrint ".") dots
              ++ [ReadThermocoupleTemperature t; SerialPrintlnFloat t;
                  VTaskDelay 500]) w.
Proof.
  unfold sensor_cycle. intros H.
  destruct (sensor_wait levels 0 w) as [[w1 rest1] |] eqn:Hw; [| discriminate].
  injection H as <- _.
  apply sensor_wait_log in Hw as [dots ->]. exists dots.
  now rewrite !emit_log, !log_log, <- ?app_assoc.
Qed.

Lemma sensor_waiting_log : forall levels count w,
  exists dots, sensor_waiting levels count w
               = log (repeat (SerialPrint ".") dots) w.
Proof.
  induction levels as [| level levels IH]; intros count w.
  - exists 0%nat. cbn. now rewrite log_nil.
  - cbn [sensor_waiting]. destruct level.
    + destruct (count >? 200).
      * destruct (IH 0 (emit (SerialPrint ".") w)) as [dots ->].
        exists (Datatypes.S dots). now rewrite emit_log, log_log.
      * apply IH.
    + exists 0%nat. cbn. now rewrite log_nil.
Qed.

Lemma sensor_loop_shares : forall samples levels w,
  desired_temp (sensor_loop samples levels w) = desired_temp w /\
  temp_reading (sensor_loop samples levels w) = temp_reading w.
Proof.
  induction samples as [| t samples IH]; intros levels w; [easy |].
  cbn [sensor_loop].
  destruct (sensor_cycle levels t w) as [[w1 rest] |] eqn:Hc.
  2:{ destruct (sensor_waiting_log levels 0 w) as [dots ->]. easy. }
  apply sensor_cycle_log in Hc as [dots ->].
  destruct (IH rest (log (repeat (SerialPrint ".") dots
                          ++ [ReadThermocoupleTemperature t;
                              SerialPrintlnFloat t; VTaskDelay 500]) w))
    as [-> ->].
  easy.
Qed.

Lemma sensor_halt_log n : forall w,
  sensor_halt n w = log (repeat (Delay 10) n) w.
Proof.
  induction n as [| n IH]; intros w; cbn [sensor_halt repeat].
  - now rewrite log_nil.
  - now rewrite IH, emit_log, log_log.
Qed.

Lemma task_sensor_shares ok n samples levels w :
  desired_temp (task_sensor ok n samples levels w) = desired_temp w /\
  temp_reading (task_sensor ok n samples levels w) = temp_reading w.
Proof.
  unfold task_sensor. destruct ok; cbn [negb].
  - destruct (sensor_loop_shares samples levels
                (emit SetConversionMode (emit SetThermocoupleType
                   (emit (ThermBegin true)
                      (emit (PinMode DRDY_PIN INPUT) w))))) as [-> ->].
    easy.
  - now rewrite sensor_halt_log.
Qed.

(** C2.  [temp_reading] is declared as the share that communicates the
  current temperature reading and [task_heater] fetches its reading from
  it, but [task_sensor] does not feed it: in each turn of its loop the
  task, once the data-ready pin reads low, samples the thermocouple,
  prints the sample on the serial console and sleeps 500 ticks, and
  whatever the inputs it leaves [temp_reading] as it was. *)
Theorem sensor_cycle_prints_sample
  (highs : nat) (levels : list bool) (t : float32) (w : world) :
  (exists dots w',
     sensor_cycle (repeat true highs ++ false :: levels) t w
       = Some (w', levels) /\
     trace w' = trace w ++ repeat (SerialPrint ".") dots
                ++ [ReadThermocoupleTemperature t; SerialPrintlnFloat t;
                    VTaskDelay 500] /\
     temp_reading w' = temp_reading w /\
     desired_temp w' = desired_temp w) /\
  (forall ok n samples levels',
     temp_reading (task_sensor ok n samples levels' w) = temp_reading w).
Proof.
  split.
  - destruct (sensor_wait_ready highs levels 0 w) as [dots Hd]; [lia |].
    exists dots. eexists. unfold sensor_cycle. rewrite Hd.
    split; [reflexivity |]. cbn. rewrite <- ?app_assoc. easy.
  - intros. apply task_sensor_shares.
Qed.

(** From the state at start-up: after a whole turn of the sensor loop,
  and after the task has run through two samples, the reading share is
  still unwritten. *)
Lemma sensor_never_writes_reading :
  (Share.has_value ∘ temp_reading ∘ fst <$> sensor_cycle [true; false] 1103626240 boot)
    = Some false /\
  Share.has_value
    (temp_reading
       (task_sensor true 0 [1103626240; 1103888384] [false; true; false] boot))
    = false.
Proof. vm_compute. split; reflexivity. Qed.

(** C6.  When [therm1.begin ()] fails the sensor task prints its
  diagnostic and then only ever calls [delay (10)]: however long it runs,
  it reads no sample and leaves the reading share untouched. *)
Theorem task_sensor_halts_on_init_failure
  (n : nat) (samples : list float32) (levels : list bool) (w : world) :
  let w' := task_sensor false n samples levels w in
  trace w' = trace w
             ++ [PinMode DRDY_PIN INPUT; ThermBegin false;
                 SerialPrintln "Could not initialize thermocouple."]
             ++ repeat (Delay 10) n /\
  temp_reading w' = temp_reading w /\
  Forall (fun e => forall t, e <> ReadThermocoupleTemperature t)
         (drop (List.length (trace w)) (trace w')).
Proof.
  cbn zeta. unfold task_sensor. cbn [negb].
  rewrite sensor_halt_log, !emit_log, !log_log. cbn [log trace temp_reading].
  split; [now rewrite <- ?app_assoc |]. split; [reflexivity |].
  rewrite drop_app_length. cbn [app].
  repeat (apply Forall_cons; split; [discriminate |]).
  apply Forall_forall. intros e He t.
  apply list_elem_of_In, repeat_spec in He. subst e. discriminate.
Qed.

(** ** [task_WiFi] *)

Lemma toInt_range s : -2147483648 <= toInt s <= 2147483647.
Proof. unfold toInt. lia. Qed.

Lemma readFile_state path w :
  exists evs, snd (readFile path w) = log evs w.
Proof.
  unfold readFile. destruct (spiffs w !! path).
  - exists []. now rewrite log_nil.
  - exists [SerialPrintln "- empty file or failed to open file"]. reflexivity.
Qed.

Lemma writeFile_shares open_ok path message w :
  desired_temp (writeFile open_ok path message w) = desired_temp w /\
  temp_reading (writeFile open_ok path message w) = temp_reading w.
Proof.
  unfold writeFile. destruct open_ok; cbn [negb]; [| easy].
  now destruct (_ =? 0).
Qed.

Lemma on_get_shares request open_ok w :
  desired_temp (on_get request open_ok w) = desired_temp w /\
  temp_reading (on_get request open_ok w) = temp_reading w.
Proof.
  unfold on_get. destruct (request !! PARAM_INT) as [v |]; cbn; [| easy].
  apply writeFile_shares.
Qed.

Lemma wifi_cycle_shares w :
  desired_temp (wifi_cycle w) = desired_temp w /\
  temp_reading (wifi_cycle w) = temp_reading w.
Proof.
  unfold wifi_cycle.
  destruct (readFile_state INPUT_FILE w) as [evs Hevs].
  destruct (readFile INPUT_FILE w) as [content w1]. cbn [snd] in Hevs.
  subst w1. easy.
Qed.

Lemma wifi_run_shares inputs : forall w,
  desired_temp (wifi_run inputs w) = desired_temp w /\
  temp_reading (wifi_run inputs w) = temp_reading w.
Proof.
  unfold wifi_run.
  induction inputs as [| i inputs IH]; intros w; [easy |].
  cbn [foldl]. destruct (IH (wifi_step i w)) as [-> ->].
  destruct i; [apply on_get_shares | apply wifi_cycle_shares].
Qed.

(** C3.  [desired_temp] is declared as the share that communicates the
  setpoint and the loop of [task_WiFi] still carries the call that would
  feed it, [desired_temp.put (yourInputInt)], commented out.  As the
  code stands a value accepted by [GET /get] goes to the file
  [/inputInt.txt] when the file can be opened (and nowhere when it
  cannot), the next turn of the loop reads the file back and prints its
  integer value, and neither the handler, nor the loop, nor any run of
  the task writes [desired_temp]. *)
Theorem wifi_stores_setpoint_in_file_only
  (inputs : list wifi_input) (params : gmap string string) (v : string)
  (open_ok : bool) (w : world) :
  let w1 := on_get (<[PARAM_INT := v]> params) open_ok w in
  let w2 := on_get (<[PARAM_INT := v]> params) true w in
  spiffs w1 !! INPUT_FILE
    = (if open_ok then Some v else spiffs w !! INPUT_FILE) /\
  trace (wifi_cycle w2)
    = trace w2 ++ [SerialPrint "*** Your inputInt: ";
                   SerialPrintlnInt (toInt v); VTaskDelay 5000] /\
  desired_temp w1 = desired_temp w /\
  desired_temp (wifi_cycle w1) = desired_temp w /\
  desired_temp (wifi_run inputs w) = desired_temp w.
Proof.
  intros w1 w2.
  assert (forall ok,
            spiffs (on_get (<[PARAM_INT := v]> params) ok w) !! INPUT_FILE
            = (if ok then Some v else spiffs w !! INPUT_FILE)) as Hfile.
  { intros ok. unfold on_get. rewrite lookup_insert_eq. cbn.
    unfold writeFile. destruct ok; cbn [negb]; [| reflexivity].
    destruct (_ =? 0); cbn; apply lookup_insert_eq. }
  split; [apply Hfile |]. split; [| split; [| split]].
  - unfold wifi_cycle, readFile. subst w2. rewrite (Hfile true). cbn.
    rewrite int32_id by (pose proof (toInt_range v); lia).
    now rewrite <- ?app_assoc.
  - apply on_get_shares.
  - destruct (wifi_cycle_shares w1) as [-> _].
    apply on_get_shares.
  - apply wifi_run_shares.
Qed.

(** From the state at start-up: a request with [inputInt=25] is
  accepted, stored and read back by the loop, and the setpoint share is
  still unwritten. *)
Lemma wifi_accepts_25_without_publishing :
  let w := wifi_run [Request {[ PARAM_INT := "25"%string ]} true; Tick] boot in
  spiffs w !! INPUT_FILE = Some "25"%string /\
  In (SerialPrintlnInt 25) (trace w) /\
  Share.has_value (desired_temp w) = false.
Proof.
  vm_compute. split; [reflexivity |]. split; [| reflexivity].
  do 3 right. left. reflexivity.
Qed.

(** ** [setup] *)

Lemma created_log evs w :
  created (trace (log evs w)) = created (trace w) ++ created evs.
Proof. unfold created. cbn. apply omap_app. Qed.

(** C7.  When [SPIFFS.begin] fails, [setup] prints its diagnostic and
  returns without a single [xTaskCreate]; when it succeeds, [setup] hands
  the three tasks (WiFi, sensor, heater) to [xTaskCreate]. *)
Theorem setup_mount_failure_is_fatal (w : world) :
  trace (setup false w)
    = trace w ++ [SerialPrintln "An Error has occurred while mounting SPIFFS"] /\
  created (trace (setup false w)) = created (trace w) /\
  created (trace (setup false boot)) = [] /\
  created (trace (setup true w))
    = created (trace w)
      ++ [(code_task_WiFi, 1); (code_task_sensor, 1); (code_task_heater, 3)].
Proof.
  unfold setup. cbn [negb]. rewrite !emit_log, !log_log.
  split; [reflexivity |]. split; [| split].
  - rewrite created_log. cbn. apply app_nil_r.
  - reflexivity.
  - rewrite created_log. reflexivity.
Qed.

(** ** Priorities and periods *)

Lemma sleeps_dots dots : sleeps (repeat (SerialPrint ".") dots) = [].
Proof. induction dots as [| dots IH]; [reflexivity | exact IH]. Qed.

(** C8.  [setup] creates the heater task with priority 3 and the sensor
  and WiFi tasks with priority 1; a turn of the heater loop ends with
  [vTaskDelay (100)] and a turn of the sensor loop with
  [vTaskDelay (500)]. *)
Theorem heater_priority_and_period
  (l : heater_locals) (w : world) (highs : nat) (levels : list bool)
  (t : float32) :
  priority_of code_task_heater (trace (setup true boot)) = Some 3 /\
  priority_of code_task_sensor (trace (setup true boot)) = Some 1 /\
  priority_of code_task_WiFi (trace (setup true boot)) = Some 1 /\
  1 < 3 /\
  sleeps (drop (List.length (trace w)) (trace (snd (heater_cycle l w))))
    = [100] /\
  (exists w',
     sensor_cycle (repeat true highs ++ false :: levels) t w
       = Some (w', levels) /\
     sleeps (drop (List.length (trace w)) (trace w')) = [500]) /\
  100 < 500.
Proof.
  do 4 (split; [reflexivity |]).
  split; [| split; [| reflexivity]].
  - unfold heater_cycle. cbn [snd].
    destruct (heater_test _); cbn; rewrite <- ?app_assoc;
      rewrite drop_app_length; reflexivity.
  - destruct (sensor_wait_ready highs levels 0 w) as [dots Hd]; [lia |].
    eexists. unfold sensor_cycle. rewrite Hd.
    split; [reflexivity |].
    cbn. rewrite <- ?app_assoc, drop_app_length.
    unfold sleeps. rewrite omap_app.
    fold (sleeps (repeat (SerialPrint ".") dots)).
    rewrite sleeps_dots. reflexivity.
Qed.

(** ** The slot under concurrent access *)

Lemma decode_bytes v : Slot.decode (Slot.byte0 v) (Slot.byte1 v) = Int.int16 v.
Proof.
  unfold Slot.decode, Slot.byte0, Slot.byte1, Int.int16, Int.signed.
  replace ((v mod 256 + 256 * ((v / 256) mod 256)) mod (2 * 32768))
    with (v mod (2 * 32768)); [reflexivity |].
  change (2 * 32768) with (256 * 256).
  rewrite (Z.rem_mul_r v 256 256) by lia.
  symmetry. apply Z.mod_small.
  pose proof (Z.mod_pos_bound v 256 ltac:(lia)).
  pose proof (Z.mod_pos_bound (v / 256) 256 ltac:(lia)). lia.
Qed.

(** Case split on whether task [j] is the one that moved. *)
Ltac moved j Hj i Hlt :=
  let Hne := fresh "Hne" in
  destruct (decide (j = i)) as [-> | Hne];
  [ rewrite list_lookup_insert_eq in Hj by exact Hlt; injection Hj as <-
  | rewrite list_lookup_insert_ne in Hj by congruence ].

Section SlotInvariant.

Variable P : Z -> Prop.

(** A task that does not hold the lock is between two calls. *)
Lemma not_owner_idle st j p :
  pc_ok st j p -> Slot.owner (Slot.memory st) <> Some j -> p = Slot.Idle.
Proof. destruct p; cbn; intuition. Qed.

Lemma results_ok_mono st st' t :
  (forall v, In v (Slot.completed st) -> In v (Slot.completed st')) ->
  results_ok st t -> results_ok st' t.
Proof. unfold results_ok. eauto. Qed.

(** What is left to show for the tasks that did not move. *)
Lemma inv_others st st' i j t :
  inv P st ->
  Slot.threads st !! j = Some t -> j <> i ->
  (Slot.owner (Slot.memory st) = None \/
   Slot.owner (Slot.memory st) = Some i) ->
  (Slot.owner (Slot.memory st') = None \/
   Slot.owner (Slot.memory st') = Some i) ->
  (forall v, In v (Slot.completed st) -> In v (Slot.completed st')) ->
  pc_ok st' j (Slot.at_pc t) /\ requested P t /\ results_ok st' t.
Proof.
  intros (Hth & _ & _) Hj Hne Hown Hown' Hmono.
  destruct (Hth j t Hj) as (Hpc & Hreq & Hres).
  assert (Slot.at_pc t = Slot.Idle) as Hidle.
  { eapply not_owner_idle; [exact Hpc |].
    destruct Hown as [-> | ->]; congruence. }
  split; [| split].
  - rewrite Hidle. cbn. destruct Hown' as [-> | ->]; congruence.
  - exact Hreq.
  - eapply results_ok_mono; eauto.
Qed.

Lemma step_inv i st st' :
  inv P st -> Slot.step i st = Some st' -> inv P st'.
Proof.
  intros Hinv Hstep.
  pose proof Hinv as (Hth & Hfree & Hdone).
  unfold Slot.step in Hstep.
  destruct (Slot.threads st !! i) as [t |] eqn:Hi; [| discriminate].
  pose proof (lookup_lt_Some _ _ _ Hi) as Hlt.
  destruct (Hth i t Hi) as (Hpc & (Htodo & Hreq) & Hres).
  destruct (Slot.at_pc t) eqn:Hat; cbn in Hpc, Hreq.
  - (* between two calls: take the lock, if it is free *)
    destruct (Slot.owner (Slot.memory st)) eqn:Hown; [discriminate |].
    destruct (Slot.todo t) as [| [v |] ops] eqn:Htd; [discriminate | |];
      injection Hstep as <-.
    + split; [| split; [discriminate | exact Hdone]].
      intros j tj Hj. cbn in Hj. moved j Hj i Hlt.
      * cbn. split; [reflexivity |]. split; [| exact Hres].
        split; [intros x Hx | ]; apply Htodo; cbn; auto.
      * apply (inv_others st _ i j tj Hinv Hj Hne); cbn; auto.
    + split; [| split; [discriminate | exact Hdone]].
      intros j tj Hj. cbn in Hj. moved j Hj i Hlt.
      * cbn. split; [split; [reflexivity | exact (Hfree eq_refl)] |].
        split; [| exact Hres].
        split; [intros x Hx; apply Htodo; cbn; auto | exact I].
      * apply (inv_others st _ i j tj Hinv Hj Hne); cbn; auto.
  - (* write: low byte *)
    injection Hstep as <-.
    split; [| split; [cbn; congruence | exact Hdone]].
    intros j tj Hj. cbn in Hj. moved j Hj i Hlt.
    + cbn. split; [auto |]. split; [split; assumption | exact Hres].
    + apply (inv_others st _ i j tj Hinv Hj Hne); cbn; auto.
  - (* write: high byte *)
    destruct Hpc as [Hown Hlo]. injection Hstep as <-.
    split; [| split; [cbn; congruence | exact Hdone]].
    intros j tj Hj. cbn in Hj. moved j Hj i Hlt.
    + cbn. split; [auto |]. split; [split; assumption | exact Hres].
    + apply (inv_others st _ i j tj Hinv Hj Hne); cbn; auto.
  - (* write: flag and release *)
    destruct Hpc as (Hown & Hlo & Hhi). injection Hstep as <-.
    split; [| split].
    + intros j tj Hj. cbn in Hj. moved j Hj i Hlt.
      * cbn. split; [discriminate |]. split; [split; [assumption | exact I] |].
        eapply results_ok_mono; [| exact Hres]. cbn. auto.
      * apply (inv_others st _ i j tj Hinv Hj Hne); cbn; auto.
    + intros _ _. cbn. left. rewrite Hlo, Hhi. symmetry. apply decode_bytes.
    + cbn. intros x [<- | Hx]; [eauto | auto].
  - (* read: low byte *)
    destruct Hpc as [Hown Hst]. injection Hstep as <-.
    split; [| split; [cbn; congruence | exact Hdone]].
    intros j tj Hj. cbn in Hj. moved j Hj i Hlt.
    + cbn. split; [auto |]. split; [split; [assumption | exact I] | exact Hres].
    + apply (inv_others st _ i j tj Hinv Hj Hne); cbn; auto.
  - (* read: high byte *)
    destruct Hpc as (Hown & Hst & Hl). injection Hstep as <-.
    split; [| split; [cbn; congruence | exact Hdone]].
    intros j tj Hj. cbn in Hj. moved j Hj i Hlt.
    + cbn. split; [auto |]. split; [split; [assumption | exact I] | exact Hres].
    + apply (inv_others st _ i j tj Hinv Hj Hne); cbn; auto.
  - (* read: flag and release *)
    destruct Hpc as (Hown & Hst & Hl & Hh). injection Hstep as <-.
    split; [| split; [intros _; exact Hst | exact Hdone]].
    intros j tj Hj. cbn in Hj. moved j Hj i Hlt.
    + cbn. split; [discriminate |]. split; [split; [assumption | exact I] |].
      intros x b [Hx | Hx] Hb.
      * injection Hx as <- <-. subst l h. exact (Hst Hb).
      * exact (Hres x b Hx Hb).
    + apply (inv_others st _ i j tj Hinv Hj Hne); cbn; auto.
Qed.

End SlotInvariant.

Lemma init_inv l0 h0 progs :
  inv (fun x => In (Slot.Write x) (List.concat progs)) (Slot.init l0 h0 progs).
Proof.
  split; [| split].
  - intros j t Hj. cbn in Hj. rewrite list_lookup_fmap in Hj.
    destruct (progs !! j) as [ops |] eqn:Hp; [| discriminate].
    injection Hj as <-. cbn.
    split; [discriminate |]. split; [| intros x b []].
    split; [| exact I]. intros x Hx. apply in_concat. exists ops.
    split; [| exact Hx]. apply list_elem_of_In. eapply list_elem_of_lookup_2, Hp.
  - discriminate.
  - intros x [].
Qed.

Lemma run_inv P sched : forall st, inv P st -> inv P (Slot.run sched st).
Proof.
  induction sched as [| i sched IH]; intros st Hinv; [exact Hinv |].
  cbn [Slot.run]. apply IH.
  destruct (Slot.step i st) as [st' |] eqn:Hstep; [| exact Hinv].
  exact (step_inv P i st st' Hinv Hstep).
Qed.

(** Alone, a task that writes and then reads gets what [Share.put] and
  [Share.read] say. *)
Lemma slot_agrees_with_share l0 h0 v :
  Slot.results <$>
    Slot.threads (Slot.run (repeat 0%nat 8)
                    (Slot.init l0 h0 [[Slot.Write v; Slot.Read]])) !! 0%nat
  = Some [Share.read (Share.put v Share.fresh)].
Proof. cbn. now rewrite decode_bytes. Qed.

(** Without the lock a read can return a mix of two writes: the low byte
  of 300 with the high byte of 20. *)
Lemma unlocked_read_can_tear :
  Slot.results <$>
    Slot.threads
      (run_unlocked [0; 0; 0; 0; 0; 0; 1; 1; 1; 1]%nat
         (Slot.init 0 0 [[Slot.Write 20; Slot.Write 300]; [Slot.Read]]))
    !! 1%nat
  = Some [(44, true)].
Proof. reflexivity. Qed.

(** C9.  Whatever the tasks' sequences of writes and reads on the slot and
  however the scheduler interleaves their steps, also between the two
  bytes of a value, every read that has returned either reports that no
  value was written yet or returned the value of a write that had
  returned before it, a value some task asked to write: never a mix of
  the bytes of two writes. *)
Theorem share_read_never_torn
  (l0 h0 : Z) (progs : list (list Slot.op)) (sched : list nat)
  (i : nat) (t : Slot.thread) (v : Z) (b : bool) :
  let st := Slot.run sched (Slot.init l0 h0 progs) in
  Slot.threads st !! i = Some t ->
  In (v, b) (Slot.results t) ->
  b = false \/
  (In v (Slot.completed st) /\
   exists x, In (Slot.Write x) (List.concat progs) /\ v = Int.int16 x).
Proof.
  intros st Hi Hv.
  destruct (run_inv _ sched _ (init_inv l0 h0 progs)) as (Hth & _ & Hdone).
  fold st in Hth, Hdone.
  destruct b; [right | now left].
  destruct (Hth i t Hi) as (_ & _ & Hres).
  pose proof (Hres v true Hv eq_refl) as Hin.
  split; [exact Hin | exact (Hdone v Hin)].
Qed.

(** A reader preempting a writer between its two calls, and preempted by
  it between its own two bytes. *)
Lemma share_read_never_torn_witness :
  let progs := [[Slot.Write 20; Slot.Write 300]; [Slot.Read; Slot.Read]] in
  let sched := [0; 0; 0; 0; 1; 1; 0; 1; 1; 0; 0; 0; 0; 1; 1; 1; 1; 1]%nat in
  let st := Slot.run sched (Slot.init 7 7 progs) in
  Slot.results <$> Slot.threads st !! 1%nat = Some [(300, true); (20, true)] /\
  (true = false \/
   (In 20 (Slot.completed st) /\
    exists x, In (Slot.Write x) (List.concat progs) /\ 20 = Int.int16 x)).
Proof.
  intros progs sched st. split; [reflexivity |].
  apply (share_read_never_torn 7 7 progs sched 1%nat
           (Slot.mk_thread Slot.Idle [] [(300, true); (20, true)]) 20 true).
  - reflexivity.
  - right. left. reflexivity.
Defined.

(** ** More on [enterStringWithEcho] *)

Lemma plain_spec c :
  plain c = true <->
  0 < c /\ c <> Echo.BS /\ c <> Echo.CR /\ c <> Echo.LF.
Proof.
  unfold plain. rewrite !andb_true_iff, !negb_true_iff, !Z.eqb_neq.
  destruct (Z.gtb_spec c 0); intuition (try lia; try discriminate).
Qed.

Lemma typed_spec c :
  typed c = true <-> plain c = true /\ 0 < c <= 255.
Proof.
  unfold typed. rewrite andb_true_iff, Z.leb_le.
  split; intros [Hp Hc]; split; try exact Hp; try lia.
  apply plain_spec in Hp. lia.
Qed.

Lemma typed_uint8 chars :
  Forall (fun c => typed c = true) chars -> map Int.uint8 chars = chars.
Proof.
  induction 1 as [| c chars Hc _ IH]; [reflexivity |].
  cbn [map]. rewrite IH. f_equal.
  apply typed_spec in Hc as [_ Hc]. unfold Int.uint8. apply Z.mod_small. lia.
Qed.

Lemma typed_plain chars :
  Forall (fun c => typed c = true) chars ->
  Forall (fun c => plain c = true) chars.
Proof.
  intros H. eapply Forall_impl; [exact H |].
  intros c Hc. now apply typed_spec in Hc.
Qed.

Lemma typed_nonzero chars :
  Forall (fun c => typed c = true) chars -> Forall (fun c => c <> 0) chars.
Proof.
  intros H. eapply Forall_impl; [exact H |].
  intros c Hc. apply typed_spec in Hc. lia.
Qed.

Lemma cstring_app pre post :
  Forall (fun c => c <> 0) pre -> cstring (pre ++ 0 :: post) = pre.
Proof.
  induction 1 as [| c pre Hc _ IH]; [reflexivity |].
  cbn. destruct (Z.eqb_spec c 0); [contradiction | now rewrite IH].
Qed.

(** While there is room, ordinary characters are stored one by one. *)
Lemma loop_type_chars size rest chars : forall st,
  Forall (fun c => plain c = true) chars ->
  0 <= Echo.count st ->
  Echo.count st + Z.of_nat (List.length chars) <= size - 1 ->
  size <= 256 ->
  Echo.loop size (chars ++ rest) st = Echo.loop size rest (type_chars chars st).
Proof.
  induction chars as [| c chars IH]; intros st Hplain Hc Hroom Hsize;
    [reflexivity |].
  apply Forall_cons in Hplain as [Hp Hplain].
  apply plain_spec in Hp as (Hpos & Hbs & Hcr & Hlf).
  cbn [List.length] in Hroom.
  cbn [app type_chars]. rewrite loop_accept by (auto; lia).
  replace (Int.uint8 (Echo.count st + 1)) with (Echo.count st + 1)
    by (unfold Int.uint8; rewrite Z.mod_small; lia).
  apply IH; cbn; try assumption; lia.
Qed.

Lemma type_chars_count chars : forall st,
  Echo.count (type_chars chars st)
  = Echo.count st + Z.of_nat (List.length chars).
Proof.
  induction chars as [| c chars IH]; intros st; cbn [type_chars List.length].
  - lia.
  - rewrite IH. cbn. lia.
Qed.

Lemma type_chars_echoed chars : forall st,
  Echo.echoed (type_chars chars st)
  = Echo.echoed st ++ map Int.uint8 chars.
Proof.
  induction chars as [| c chars IH]; intros st; cbn [type_chars map].
  - now rewrite app_nil_r.
  - rewrite IH. cbn. now rewrite <- app_assoc.
Qed.

Lemma type_chars_buffer chars : forall st pre old post,
  Echo.buffer st = pre ++ old ++ post ->
  Echo.count st = Z.of_nat (List.length pre) ->
  List.length old = List.length chars ->
  Echo.buffer (type_chars chars st) = pre ++ map Int.uint8 chars ++ post.
Proof.
  induction chars as [| c chars IH]; intros st pre old post Hbuf Hc Hlen.
  - destruct old; [exact Hbuf | discriminate].
  - destruct old as [| o old]; [discriminate |].
    cbn [type_chars map].
    rewrite (IH _ (pre ++ [Int.uint8 c]) old post).
    + now rewrite <- app_assoc.
    + cbn. rewrite Hbuf, Hc, Nat2Z.id.
      rewrite insert_app_r_alt by lia. rewrite Nat.sub_diag. cbn.
      now rewrite <- app_assoc.
    + cbn. rewrite Hc, length_app. cbn. lia.
    + cbn in Hlen. lia.
Qed.

(** The buffer after [chars] were typed into an empty line and a NUL was
  stored behind them. *)
Lemma typed_line_buffer chars buf :
  (List.length chars < List.length buf)%nat ->
  <[List.length chars := 0]>
    (Echo.buffer (type_chars chars (Echo.start buf)))
  = map Int.uint8 chars ++ 0 :: drop (Datatypes.S (List.length chars)) buf.
Proof.
  intros Hlen.
  rewrite (type_chars_buffer chars (Echo.start buf) []
             (take (List.length chars) buf) (drop (List.length chars) buf)).
  - cbn [app].
    destruct (drop (List.length chars) buf) as [| b tl] eqn:Hd.
    { apply (f_equal List.length) in Hd. rewrite length_drop in Hd.
      cbn in Hd. lia. }
    replace (List.length chars) with (List.length (map Int.uint8 chars) + 0)%nat
      at 1 by (rewrite length_map; lia).
    rewrite insert_app_r. cbn. do 2 f_equal.
    replace (Datatypes.S (List.length chars))
      with (List.length chars + 1)%nat by lia.
    rewrite <- drop_drop, Hd. reflexivity.
  - cbn. now rewrite take_drop.
  - reflexivity.
  - rewrite length_take. lia.
Qed.

(** A short line ending with a line feed, from an empty line: the
  characters are stored, then the NUL. *)
Lemma loop_line_feed (chars rest buf : list Z) (size : Z) :
  Forall (fun c => plain c = true) chars ->
  Z.of_nat (List.length chars) < size - 1 -> size <= 255 ->
  Echo.enterStringWithEcho (chars ++ Echo.LF :: rest) buf size
  = Echo.Returned
      (Echo.store (Z.of_nat (List.length chars)) 0
         (Echo.echo Echo.LF (type_chars chars (Echo.start buf))))
      rest.
Proof.
  intros Hplain Hroom Hsize. unfold Echo.enterStringWithEcho.
  rewrite loop_type_chars by (cbn; auto; lia).
  rewrite loop_terminate by (try discriminate; auto; cbv; reflexivity).
  cbn [Echo.echo Echo.count]. rewrite type_chars_count. reflexivity.
Qed.

Lemma typed_line_cstring (chars buf : list Z) (x : Z) :
  Forall (fun c => typed c = true) chars ->
  (List.length chars < List.length buf)%nat ->
  cstring (Echo.buffer
             (Echo.store (Z.of_nat (List.length chars)) 0
                (Echo.echo x (type_chars chars (Echo.start buf)))))
  = chars.
Proof.
  intros Htyped Hbuf. cbn [Echo.store Echo.echo Echo.buffer].
  rewrite Nat2Z.id, typed_line_buffer, typed_uint8 by assumption.
  apply cstring_app. now apply typed_nonzero.
Qed.

(** X1.  A line of ordinary characters that is shorter than [size - 1]
  and ends with a line feed is read whole: the function returns with the
  rest of the stream untouched, the buffer holds the characters followed
  by a NUL (the bytes behind it are as they were), and every character,
  the line feed included, was echoed. *)
Theorem enterStringWithEcho_reads_line
  (chars rest buf : list Z) (size : Z) :
  Forall (fun c => typed c = true) chars ->
  Z.of_nat (List.length chars) < size - 1 -> size <= 255 ->
  (List.length chars < List.length buf)%nat ->
  exists st,
    Echo.enterStringWithEcho (chars ++ Echo.LF :: rest) buf size
      = Echo.Returned st rest /\
    Echo.buffer st
      = chars ++ 0 :: drop (Datatypes.S (List.length chars)) buf /\
    cstring (Echo.buffer st) = chars /\
    Echo.echoed st = chars ++ [Echo.LF].
Proof.
  intros Htyped Hroom Hsize Hbuf.
  rewrite loop_line_feed by (auto using typed_plain).
  eexists. split; [reflexivity |].
  assert (Echo.buffer
            (Echo.store (Z.of_nat (List.length chars)) 0
               (Echo.echo Echo.LF (type_chars chars (Echo.start buf))))
          = chars ++ 0 :: drop (Datatypes.S (List.length chars)) buf) as Hb.
  { cbn [Echo.store Echo.echo Echo.buffer].
    rewrite Nat2Z.id, typed_line_buffer by exact Hbuf.
    now rewrite typed_uint8. }
  split; [exact Hb |]. split.
  - rewrite Hb. apply cstring_app. now apply typed_nonzero.
  - cbn [Echo.store Echo.echo Echo.echoed].
    rewrite type_chars_echoed, typed_uint8 by exact Htyped. reflexivity.
Qed.

Lemma enterStringWithEcho_reads_line_witness :
  exists st,
    Echo.enterStringWithEcho [104; 105; Echo.LF; 112; 119] (repeat 7 36) 34
      = Echo.Returned st [112; 119] /\
    cstring (Echo.buffer st) = [104; 105].
Proof.
  destruct (enterStringWithEcho_reads_line [104; 105] [112; 119]
              (repeat 7 36) 34) as (st & Hrun & _ & Hstr & _).
  - repeat constructor.
  - cbn. lia.
  - lia.
  - cbn. lia.
  - exists st. split; [exact Hrun | exact Hstr].
Defined.

(** X2.  Once [size - 1] ordinary characters are stored the next
  character ends the entry, whatever it is (other than a backspace or a
  carriage return): it is consumed and echoed but not stored, and the
  buffer holds the [size - 1] characters followed by a NUL. *)
Theorem enterStringWithEcho_truncates
  (chars rest buf : list Z) (x size : Z) :
  Forall (fun c => typed c = true) chars ->
  Z.of_nat (List.length chars) = size - 1 -> size <= 255 ->
  0 < x -> x <> Echo.BS -> x <> Echo.CR ->
  (List.length chars < List.length buf)%nat ->
  exists st,
    Echo.enterStringWithEcho (chars ++ x :: rest) buf size
      = Echo.Returned st rest /\
    Echo.buffer st
      = chars ++ 0 :: drop (Datatypes.S (List.length chars)) buf /\
    cstring (Echo.buffer st) = chars /\
    Echo.echoed st = chars ++ [Int.uint8 x].
Proof.
  intros Htyped Hfull Hsize Hx Hbs Hcr Hbuf.
  unfold Echo.enterStringWithEcho.
  rewrite loop_type_chars by (cbn; auto using typed_plain; lia).
  rewrite loop_terminate
    by (auto; right; rewrite type_chars_count; cbn; lia).
  eexists. split; [reflexivity |].
  assert (Echo.buffer
            (Echo.store (Echo.count (type_chars chars (Echo.start buf))) 0
               (Echo.echo x (type_chars chars (Echo.start buf))))
          = chars ++ 0 :: drop (Datatypes.S (List.length chars)) buf) as Hb.
  { cbn [Echo.store Echo.echo Echo.buffer Echo.count].
    rewrite type_chars_count. cbn [Echo.start Echo.count].
    rewrite Z.add_0_l, Nat2Z.id, typed_line_buffer by exact Hbuf.
    now rewrite typed_uint8. }
  split; [exact Hb |]. split.
  - rewrite Hb. apply cstring_app. now apply typed_nonzero.
  - cbn [Echo.store Echo.echo Echo.echoed].
    rewrite type_chars_echoed, typed_uint8 by exact Htyped. reflexivity.
Qed.

Lemma enterStringWithEcho_truncates_witness :
  exists st,
    Echo.enterStringWithEcho [97; 98; 99; 100; 101] (repeat 7 4) 4
      = Echo.Returned st [101] /\
    cstring (Echo.buffer st) = [97; 98; 99].
Proof.
  destruct (enterStringWithEcho_truncates [97; 98; 99] [101]
              (repeat 7 4) 100 4) as (st & Hrun & _ & Hstr & _).
  - repeat constructor.
  - reflexivity.
  - lia.
  - lia.
  - discriminate.
  - discriminate.
  - cbn. lia.
  - exists st. split; [exact Hrun | exact Hstr].
Defined.

(** X3.  A backspace typed after two or more characters takes two of them
  back, not one: the line [chars], backspace, line feed leaves in the
  buffer the C string made of all but the last two characters. *)
Theorem enterStringWithEcho_backspace_drops_two
  (chars rest buf : list Z) (size : Z) :
  Forall (fun c => typed c = true) chars ->
  (2 <= List.length chars)%nat ->
  Z.of_nat (List.length chars) <= size - 1 -> size <= 255 ->
  (List.length chars <= List.length buf)%nat ->
  exists st,
    Echo.enterStringWithEcho (chars ++ Echo.BS :: Echo.LF :: rest) buf size
      = Echo.Returned st rest /\
    Echo.count st = Z.of_nat (List.length chars) - 2 /\
    cstring (Echo.buffer st) = take (List.length chars - 2) chars.
Proof.
  intros Htyped Htwo Hroom Hsize Hbuf.
  unfold Echo.enterStringWithEcho.
  rewrite loop_type_chars by (cbn; auto using typed_plain; lia).
  rewrite loop_backspace by (rewrite type_chars_count; cbn; lia).
  rewrite loop_terminate by (try discriminate; auto; cbv; reflexivity).
  eexists. split; [reflexivity |].
  cbn [Echo.store Echo.set_count Echo.echo Echo.buffer Echo.count].
  rewrite type_chars_count. cbn [Echo.start Echo.count].
  replace (Int.uint8 (0 + Z.of_nat (List.length chars) - 2))
    with (Z.of_nat (List.length chars - 2))
    by (unfold Int.uint8; rewrite Z.mod_small; lia).
  split; [lia |].
  rewrite Nat2Z.id.
  rewrite (type_chars_buffer chars (Echo.start buf) []
             (take (List.length chars) buf) (drop (List.length chars) buf));
    [| cbn; now rewrite take_drop | reflexivity | rewrite length_take; lia].
  cbn [app]. rewrite typed_uint8 by exact Htyped.
  rewrite insert_take_drop by (rewrite length_app; lia).
  rewrite take_app_le by lia.
  apply cstring_app. apply Forall_take. now apply typed_nonzero.
Qed.

Lemma enterStringWithEcho_backspace_drops_two_witness :
  exists st,
    Echo.enterStringWithEcho [97; 98; 99; Echo.BS; Echo.LF] (repeat 7 36) 34
      = Echo.Returned st [] /\
    cstring (Echo.buffer st) = [97].
Proof.
  destruct (enterStringWithEcho_backspace_drops_two [97; 98; 99] []
              (repeat 7 36) 34) as (st & Hrun & _ & Hstr).
  - repeat constructor.
  - cbn. lia.
  - cbn. lia.
  - lia.
  - cbn. lia.
  - exists st. split; [exact Hrun | exact Hstr].
Defined.

(** X4.  With [size] 0 or 1 there is no room for a character: the first
  byte received that is not a carriage return ends the entry at once, is
  dropped, and the only store is the NUL at index 0, which for an empty
  buffer lies outside it. *)
Theorem enterStringWithEcho_no_room (c size : Z) (rest buf : list Z) :
  0 <= size <= 1 -> 0 < c -> c <> Echo.CR ->
  exists st,
    Echo.enterStringWithEcho (c :: rest) buf size = Echo.Returned st rest /\
    Echo.stores st = [(0, 0)] /\
    cstring (Echo.buffer st) = [] /\
    (buf = [] -> Echo.out_of_bounds (List.length buf) 0).
Proof.
  intros Hsize Hc Hcr. unfold Echo.enterStringWithEcho. cbn [Echo.loop].
  destruct (Z.gtb_spec c 0); [| lia].
  cbn [Echo.echo Echo.start Echo.count]. change (0 =? 0) with true.
  rewrite andb_false_r.
  destruct (Z.eqb_spec c Echo.CR); [contradiction |].
  replace (0 >=? size - 1) with true
    by (symmetry; destruct (Z.geb_spec 0 (size - 1)); [reflexivity | lia]).
  rewrite orb_true_r.
  eexists. split; [reflexivity |]. split; [reflexivity |]. split.
  - cbn. destruct buf; reflexivity.
  - intros ->. unfold Echo.out_of_bounds. cbn. lia.
Qed.

Lemma enterStringWithEcho_no_room_witness :
  exists st,
    Echo.enterStringWithEcho [97; 98] [] 0 = Echo.Returned st [98] /\
    Echo.stores st = [(0, 0)] /\
    Echo.out_of_bounds 0 0.
Proof.
  destruct (enterStringWithEcho_no_room 97 0 [98] [])
    as (st & Hrun & Hst & _ & Hoob); try lia; try discriminate.
  exists st. split; [exact Hrun |]. split; [exact Hst |].
  exact (Hoob eq_refl).
Defined.

(** Without backspaces the counter never leaves [0, size - 1]. *)
Lemma loop_within_size (size : Z) (input : list Z) :
  1 <= size <= 255 ->
  ~ In Echo.BS input ->
  forall st,
    0 <= Echo.count st <= size - 1 ->
    stores_within size st ->
    0 <= Echo.count (Echo.state_of (Echo.loop size input st)) <= size - 1 /\
    stores_within size (Echo.state_of (Echo.loop size input st)).
Proof.
  intros Hsize. unfold stores_within.
  induction input as [| c input IH]; intros Hbs st Hc Hst; [now cbn |].
  assert (c <> Echo.BS) as Hne by (intros ->; apply Hbs; now left).
  assert (~ In Echo.BS input) as Hbs' by (intros Hin; apply Hbs; now right).
  cbn [Echo.loop].
  destruct (Z.gtb_spec c 0); [| now apply IH].
  destruct (Z.eqb_spec c Echo.BS); [contradiction |]. cbn [andb].
  destruct (Z.eqb_spec c Echo.CR); [now apply IH |].
  cbn [Echo.echo Echo.count].
  destruct (Z.eqb_spec c Echo.LF); cbn [orb].
  - cbn. split; [exact Hc |]. apply Forall_app. split; [exact Hst |].
    repeat constructor; cbn; lia.
  - destruct (Z.geb_spec (Echo.count st) (size - 1)).
    + cbn. split; [exact Hc |]. apply Forall_app. split; [exact Hst |].
      repeat constructor; cbn; lia.
    + apply IH; [exact Hbs' | |].
      * cbn. unfold Int.uint8. rewrite Z.mod_small; lia.
      * cbn. apply Forall_app. split; [exact Hst |].
        repeat constructor; cbn; lia.
Qed.

(** X5.  As long as no backspace is received the counter stays within
  [0, size - 1] and so does the index of every store: a buffer of at
  least [size] bytes is never overrun. *)
Theorem enterStringWithEcho_within_size (size : Z) (input buf : list Z) :
  1 <= size <= 255 ->
  ~ In Echo.BS input ->
  size <= Z.of_nat (List.length buf) ->
  let st := Echo.state_of (Echo.enterStringWithEcho input buf size) in
  0 <= Echo.count st <= size - 1 /\
  stores_within size st /\
  Forall (fun s => ~ Echo.out_of_bounds (List.length buf) (fst s))
         (Echo.stores st) /\
  List.length (Echo.buffer st) = List.length buf.
Proof.
  intros Hsize Hbs Hbuf st. subst st. unfold Echo.enterStringWithEcho.
  destruct (loop_within_size size input Hsize Hbs (Echo.start buf))
    as [Hc Hw]; [cbn; lia | constructor |].
  split; [exact Hc |]. split; [exact Hw |]. split.
  - unfold stores_within in Hw. eapply Forall_impl; [exact Hw |].
    intros s Hs. unfold Echo.out_of_bounds. cbv beta in Hs. lia.
  - clear Hc Hw Hbs.
    assert (forall st, List.length
                         (Echo.buffer (Echo.state_of (Echo.loop size input st)))
                       = List.length (Echo.buffer st)) as Hlen.
    { induction input as [| c input IH]; intros st; [reflexivity |].
      cbn [Echo.loop].
      destruct (c >? 0); [| now rewrite IH].
      destruct ((c =? Echo.BS) && _); [now rewrite IH |].
      destruct (c =? Echo.CR); [now rewrite IH |].
      destruct ((c =? Echo.LF) || _).
      - cbn. apply length_insert.
      - rewrite IH. cbn. apply length_insert. }
    apply Hlen.
Qed.

Lemma enterStringWithEcho_within_size_witness :
  stores_within 4
    (Echo.state_of
       (Echo.enterStringWithEcho [97; 98; 99; 100; 101] (repeat 7 4) 4)).
Proof.
  apply (enterStringWithEcho_within_size 4 [97; 98; 99; 100; 101]
           (repeat 7 4)).
  - lia.
  - intros Hin. repeat (destruct Hin as [Hin | Hin]; [discriminate |]).
    exact Hin.
  - cbn. lia.
Defined.

(** X6.  A line feed always ends the entry: whatever was received before
  it and whatever [size] is, the function has returned once the stream
  holds a line feed. *)
Theorem enterStringWithEcho_returns_on_line_feed
  (size : Z) (input : list Z) :
  In Echo.LF input ->
  forall st, Echo.returned (Echo.loop size input st) = true.
Proof.
  induction input as [| c input IH]; intros Hin st; [destruct Hin |].
  assert (c <> Echo.LF -> In Echo.LF input) as Hrest.
  { intros Hne. destruct Hin as [Heq | Hin]; [congruence | exact Hin]. }
  cbn [Echo.loop].
  destruct (Z.gtb_spec c 0).
  - destruct (Z.eqb_spec c Echo.BS) as [Hbs | Hbs]; cbn [andb].
    + destruct (negb _).
      * apply IH, Hrest. rewrite Hbs. discriminate.
      * change (c =? Echo.CR) with (c =? 13). rewrite Hbs. cbn [Z.eqb].
        change (Echo.BS =? Echo.LF) with false. cbn [orb Pos.eqb].
        destruct (_ >=? _); [reflexivity |].
        apply IH, Hrest. rewrite Hbs. discriminate.
    + destruct (Z.eqb_spec c Echo.CR) as [Hcr | Hcr].
      * apply IH, Hrest. rewrite Hcr. discriminate.
      * destruct (Z.eqb_spec c Echo.LF) as [Hlf | Hlf]; cbn [orb];
          [reflexivity |].
        destruct (_ >=? _); [reflexivity |].
        apply IH, Hrest. exact Hlf.
  - apply IH, Hrest. unfold Echo.LF. lia.
Qed.

Lemma enterStringWithEcho_returns_on_line_feed_witness :
  Echo.returned (Echo.loop 34 [97; Echo.BS; Echo.BS; Echo.LF; 98]
                   (Echo.start (repeat 0 36))) = true.
Proof.
  apply enterStringWithEcho_returns_on_line_feed.
  do 3 right. left. reflexivity.
Defined.

(** What the loop consumes is a prefix of the stream, echoed in order. *)
Lemma loop_consumes (size : Z) (input : list Z) :
  forall st, exists consumed,
    input = consumed ++ echo_rest (Echo.loop size input st) /\
    Echo.echoed (Echo.state_of (Echo.loop size input st))
      = Echo.echoed st
        ++ map Int.uint8 (List.filter (fun c => c >? 0) consumed) /\
    Echo.yields (Echo.state_of (Echo.loop size input st))
      = Echo.yields st
        + Z.of_nat (List.length
                      (List.filter (fun c => negb (c >? 0)) consumed)).
Proof.
  induction input as [| c input IH]; intros st.
  - exists []. cbn. rewrite app_nil_r. split; [reflexivity |]. split; [reflexivity | lia].
  - cbn [Echo.loop].
    assert (forall st',
              Echo.echoed st' = Echo.echoed st ++ [Int.uint8 c] ->
              Echo.yields st' = Echo.yields st ->
              (c >? 0) = true ->
              exists consumed,
                c :: input = consumed ++ echo_rest (Echo.loop size input st') /\
                Echo.echoed (Echo.state_of (Echo.loop size input st'))
                = Echo.echoed st
                  ++ map Int.uint8 (List.filter (fun c => c >? 0) consumed) /\
                Echo.yields (Echo.state_of (Echo.loop size input st'))
                = Echo.yields st
                  + Z.of_nat (List.length
                       (List.filter (fun c => negb (c >? 0)) consumed)))
      as Hrec.
    { intros st' He Hy Hpos. destruct (IH st') as (consumed & Hin & Hec & Hyi).
      exists (c :: consumed). cbn [List.filter app]. rewrite Hpos. cbn [negb map].
      split; [now rewrite <- Hin |]. split.
      - rewrite Hec, He, <- app_assoc. reflexivity.
      - rewrite Hyi, Hy. reflexivity. }
    destruct (c >? 0) eqn:Hpos.
    + destruct ((c =? Echo.BS) && _); [now apply Hrec |].
      destruct (c =? Echo.CR); [now apply Hrec |].
      destruct ((c =? Echo.LF) || _); [| now apply Hrec].
      exists [c]. cbn. rewrite Hpos. cbn. split; [reflexivity |].
      split; [reflexivity | lia].
    + destruct (IH (Echo.yield st)) as (consumed & Hin & Hec & Hyi).
      exists (c :: consumed). cbn [List.filter app]. rewrite Hpos. cbn [negb].
      split; [now rewrite <- Hin |]. split.
      * exact Hec.
      * rewrite Hyi. cbn. lia.
Qed.

(** X7.  Every byte received, control characters and the ending character
  included, is echoed exactly once and in order, and every read that
  finds nothing yields to the scheduler once: the bytes the function has
  consumed are a prefix of the stream, the echo is their positive ones
  and the number of yields is the number of the others. *)
Theorem enterStringWithEcho_echoes_all (size : Z) (input buf : list Z) :
  let o := Echo.enterStringWithEcho input buf size in
  exists consumed,
    input = consumed ++ echo_rest o /\
    Echo.echoed (Echo.state_of o)
      = map Int.uint8 (List.filter (fun c => c >? 0) consumed) /\
    Echo.yields (Echo.state_of o)
      = Z.of_nat (List.length
                    (List.filter (fun c => negb (c >? 0)) consumed)) /\
    (List.length (Echo.echoed (Echo.state_of o))
     + Z.to_nat (Echo.yields (Echo.state_of o))
     = List.length consumed)%nat.
Proof.
  intros o. subst o. unfold Echo.enterStringWithEcho.
  destruct (loop_consumes size input (Echo.start buf))
    as (consumed & Hin & Hecho & Hyields).
  exists consumed. cbn [Echo.start Echo.echoed Echo.yields app] in Hecho, Hyields.
  split; [exact Hin |]. split; [exact Hecho |]. split; [lia |].
  rewrite Hecho, Hyields, length_map, Z.add_0_l, Nat2Z.id.
  clear. induction consumed as [| c consumed IH]; [reflexivity |].
  cbn [List.filter]. destruct (c >? 0); cbn [negb List.length]; lia.
Qed.

(** X8.  Carriage returns and reads that find nothing play no part in
  the result: from two states that agree on counter, buffer and stores
  (the start of a call in particular), the function returns on a stream
  exactly when it returns on the stream without those bytes, and
  counter, buffer and stores are then the same. *)
Theorem enterStringWithEcho_ignores_cr (size : Z) (input : list Z) :
  forall st1 st2,
  same_line st1 st2 ->
  Echo.returned (Echo.loop size input st1)
  = Echo.returned
      (Echo.loop size (List.filter (fun c => negb (ignored c)) input) st2) /\
  same_line
    (Echo.state_of (Echo.loop size input st1))
    (Echo.state_of
       (Echo.loop size (List.filter (fun c => negb (ignored c)) input) st2)).
Proof.
  unfold same_line.
  induction input as [| c input IH]; intros st1 st2 (Hc & Hb & Hs);
    [now cbn |].
  cbn [List.filter]. destruct (ignored c) eqn:Hig; cbn [negb Echo.loop].
  - unfold ignored in Hig. apply orb_true_iff in Hig as [Hle | Hcr].
    + apply Z.leb_le in Hle. destruct (Z.gtb_spec c 0); [lia |].
      apply IH. now cbn.
    + apply Z.eqb_eq in Hcr. subst c. cbn. apply IH. now cbn.
  - unfold ignored in Hig. apply orb_false_iff in Hig as [Hle Hcr].
    rewrite Hcr. apply Z.leb_gt in Hle.
    destruct (Z.gtb_spec c 0); [| lia].
    cbn [Echo.echo Echo.count]. rewrite <- Hc.
    destruct ((c =? Echo.BS) && _); [apply IH; now cbn |].
    destruct ((c =? Echo.LF) || _).
    + cbn. now rewrite Hb, Hs.
    + apply IH. cbn. now rewrite Hb, Hs.
Qed.

Lemma enterStringWithEcho_ignores_cr_witness :
  let input := [104; Echo.CR; -1; 105; -1; Echo.CR; Echo.LF; 33] in
  List.filter (fun c => negb (ignored c)) input = [104; 105; Echo.LF; 33] /\
  same_line
    (Echo.state_of (Echo.enterStringWithEcho input (repeat 7 36) 34))
    (Echo.state_of
       (Echo.enterStringWithEcho [104; 105; Echo.LF; 33] (repeat 7 36) 34)).
Proof.
  intros input. split; [reflexivity |].
  refine (proj2 (enterStringWithEcho_ignores_cr 34 input
                   (Echo.start (repeat 7 36)) (Echo.start (repeat 7 36)) _)).
  unfold same_line. repeat split; reflexivity.
Defined.

(** ** The credentials of [task_WiFi] *)

(** X9.  When the operator types the network name and the password, each
  of at most 32 ordinary characters and each ended by a line feed, both
  calls return, the two 36-byte buffers hold the two strings and the rest
  of the serial stream is left unread. *)
Theorem enter_credentials_reads_both
  (ssid pw rest essid_buf pw_buf : list Z) :
  Forall (fun c => typed c = true) ssid ->
  Forall (fun c => typed c = true) pw ->
  (List.length ssid <= 32)%nat -> (List.length pw <= 32)%nat ->
  List.length essid_buf = 36%nat -> List.length pw_buf = 36%nat ->
  exists s1 s2,
    enter_credentials (ssid ++ Echo.LF :: pw ++ Echo.LF :: rest)
                      essid_buf pw_buf = Some (s1, s2, rest) /\
    cstring (Echo.buffer s1) = ssid /\
    cstring (Echo.buffer s2) = pw.
Proof.
  intros Hs Hp Hls Hlp Hb1 Hb2. unfold enter_credentials.
  rewrite loop_line_feed by (auto using typed_plain; lia).
  rewrite loop_line_feed by (auto using typed_plain; lia).
  eexists. eexists. split; [reflexivity |].
  split; apply typed_line_cstring; auto; lia.
Qed.

Lemma enter_credentials_reads_both_witness :
  exists s1 s2,
    enter_credentials [108; 97; 98; Echo.LF; 112; 119; Echo.LF; 33]
                      (repeat 7 36) (repeat 9 36) = Some (s1, s2, [33]) /\
    cstring (Echo.buffer s1) = [108; 97; 98] /\
    cstring (Echo.buffer s2) = [112; 119].
Proof.
  apply (enter_credentials_reads_both [108; 97; 98] [112; 119] [33]
           (repeat 7 36) (repeat 9 36)).
  - repeat constructor.
  - repeat constructor.
  - cbn. lia.
  - cbn. lia.
  - reflexivity.
  - reflexivity.
Defined.

(** X10.  As long as the operator sends no backspace, neither call stores
  outside the first 34 bytes of its buffer, however long the lines are
  and whether or not the calls have returned yet: the 36-byte buffers of
  [task_WiFi] are not overrun. *)
Theorem enter_credentials_within_buffers
  (input essid_buf pw_buf : list Z) :
  ~ In Echo.BS input ->
  let p := credentials_progress input essid_buf pw_buf in
  stores_within 34 (fst p) /\
  Forall (fun s => ~ Echo.out_of_bounds 36 (fst s)) (Echo.stores (fst p)) /\
  match snd p with
  | Some s2 =>
      stores_within 34 s2 /\
      Forall (fun s => ~ Echo.out_of_bounds 36 (fst s)) (Echo.stores s2)
  | None => True
  end.
Proof.
  intros Hbs p. subst p. unfold credentials_progress.
  unfold Echo.enterStringWithEcho.
  assert (1 <= 34 <= 255) as H34 by lia.
  assert (forall st, stores_within 34 st ->
            Forall (fun s => ~ Echo.out_of_bounds 36 (fst s)) (Echo.stores st))
    as Hin36.
  { intros st Hst. unfold stores_within in Hst.
    eapply Forall_impl; [exact Hst |].
    intros s Hs. unfold Echo.out_of_bounds.
    change (Z.of_nat 36) with 36. cbv beta in Hs. lia. }
  destruct (loop_consumes 34 input (Echo.start essid_buf))
    as (consumed & Hin & _).
  destruct (loop_within_size 34 input H34 Hbs (Echo.start essid_buf))
    as [_ Hw1]; [cbn; lia | constructor |].
  destruct (Echo.loop 34 input (Echo.start essid_buf)) as [t1 rest1 | t1];
    cbn [fst snd Echo.state_of echo_rest] in *.
  - assert (~ In Echo.BS rest1) as Hbs1.
    { intros Hr. apply Hbs. rewrite Hin. apply in_or_app. now right. }
    destruct (loop_within_size 34 rest1 H34 Hbs1 (Echo.start pw_buf))
      as [_ Hw2]; [cbn; lia | constructor |].
    split; [exact Hw1 |]. split; [now apply Hin36 |].
    split; [exact Hw2 | now apply Hin36].
  - split; [exact Hw1 |]. split; [now apply Hin36 | exact I].
Qed.

(** The second call still reading: the password line has no line feed
  yet. *)
Lemma enter_credentials_within_buffers_witness :
  let p := credentials_progress [97; 98; Echo.LF; 99; Echo.CR; 100]
                                (repeat 7 36) (repeat 9 36) in
  enter_credentials [97; 98; Echo.LF; 99; Echo.CR; 100]
                    (repeat 7 36) (repeat 9 36) = None /\
  stores_within 34 (fst p) /\
  from_option (stores_within 34) False (snd p).
Proof.
  intros p.
  assert (~ In Echo.BS [97; 98; Echo.LF; 99; Echo.CR; 100]) as Hbs.
  { intros Hin. repeat (destruct Hin as [Hin | Hin]; [discriminate |]).
    exact Hin. }
  destruct (enter_credentials_within_buffers _ (repeat 7 36) (repeat 9 36) Hbs)
    as (H1 & _ & H2).
  split; [reflexivity |]. split; [exact H1 |]. exact (proj1 H2).
Defined.

(** ** Files, the request handler and the template processor *)

Lemma writeFile_spiffs path message w :
  spiffs (writeFile true path message w) = <[path := message]> (spiffs w).
Proof. unfold writeFile. cbn [negb]. now destruct (_ =? 0). Qed.

Lemma writeFile_failed path message w :
  writeFile false path message w
  = log [SerialPrintln "- failed to open file for writing"] w.
Proof. reflexivity. Qed.

Lemma readFile_found path content w :
  spiffs w !! path = Some content -> readFile path w = (content, w).
Proof. unfold readFile. now intros ->. Qed.

Lemma on_get_stores (params : gmap string string) v w :
  spiffs (on_get (<[PARAM_INT := v]> params) true w) !! INPUT_FILE = Some v.
Proof.
  unfold on_get. rewrite lookup_insert_eq. cbn.
  unfold writeFile. cbn [negb].
  destruct (_ =? 0); cbn; apply lookup_insert_eq.
Qed.

(** X11.  What [writeFile] stored, [readFile] returns, without a
  diagnostic and without touching the volume; the other files read as
  before. *)
Theorem writeFile_then_readFile (path other message : string) (w : world) :
  other <> path ->
  let w1 := writeFile true path message w in
  readFile path w1 = (message, w1) /\
  fst (readFile other w1) = fst (readFile other w) /\
  spiffs (snd (readFile other w1)) = spiffs w1.
Proof.
  intros Hne w1. subst w1. split; [| split].
  - apply readFile_found. rewrite writeFile_spiffs. apply lookup_insert_eq.
  - unfold readFile. rewrite writeFile_spiffs, lookup_insert_ne by congruence.
    now destruct (spiffs w !! other).
  - unfold readFile. now destruct (spiffs _ !! other).
Qed.

Lemma writeFile_then_readFile_witness :
  "/other.txt"%string <> INPUT_FILE /\
  readFile INPUT_FILE (writeFile true INPUT_FILE "31" boot)
  = ("31"%string, writeFile true INPUT_FILE "31" boot).
Proof.
  assert ("/other.txt"%string <> INPUT_FILE) as Hne by discriminate.
  split; [exact Hne |].
  exact (proj1 (writeFile_then_readFile INPUT_FILE "/other.txt" "31" boot Hne)).
Defined.

(** X12.  The handler of [GET /get] answers every request, with or
  without the parameter and whether or not the file could be written,
  with exactly one response, of status 200, sent last. *)
Theorem on_get_always_answers_200
  (request : gmap string string) (open_ok : bool) (w : world) :
  exists evs body,
    trace (on_get request open_ok w)
      = trace w ++ evs ++ [HttpSend 200 "text/html" body] /\
    Forall (fun e => forall s t b, e <> HttpSend s t b) evs.
Proof.
  unfold on_get. destruct (request !! PARAM_INT) as [v |].
  - unfold writeFile. destruct open_ok; cbn [negb].
    + destruct (_ =? 0).
      * exists [SerialPrintln "- write failed"; SerialPrintln v]. eexists.
        cbn. rewrite <- ?app_assoc. split; [reflexivity |].
        repeat constructor; discriminate.
      * exists [SerialPrintln v]. eexists.
        cbn. rewrite <- ?app_assoc. split; [reflexivity |].
        repeat constructor; discriminate.
    + exists [SerialPrintln "- failed to open file for writing";
              SerialPrintln v]. eexists.
      cbn. rewrite <- ?app_assoc. split; [reflexivity |].
      repeat constructor; discriminate.
  - exists [SerialPrintln "No message sent"]. eexists.
    cbn. rewrite <- ?app_assoc. split; [reflexivity |].
    repeat constructor; discriminate.
Qed.

(** X13.  A request without the parameter, or one whose value could not
  be written, leaves the volume as it was: the setpoint on file, if any,
  is still the one read back. *)
Theorem on_get_keeps_file_on_failure
  (request : gmap string string) (open_ok : bool) (w : world) :
  open_ok = false \/ request !! PARAM_INT = None ->
  spiffs (on_get request open_ok w) = spiffs w /\
  fst (readFile INPUT_FILE (on_get request open_ok w))
  = fst (readFile INPUT_FILE w).
Proof.
  intros Hfail.
  assert (spiffs (on_get request open_ok w) = spiffs w) as Hfs.
  { unfold on_get. destruct (request !! PARAM_INT) as [v |]; [| reflexivity].
    destruct Hfail as [-> | Hnone]; [reflexivity | discriminate]. }
  split; [exact Hfs |]. unfold readFile. rewrite Hfs.
  now destruct (spiffs w !! INPUT_FILE).
Qed.

Lemma on_get_keeps_file_on_failure_witness :
  let w := writeFile true INPUT_FILE "31" boot in
  fst (readFile INPUT_FILE (on_get {[ PARAM_INT := "40"%string ]} false w))
  = "31"%string.
Proof.
  intros w.
  rewrite (proj2 (on_get_keeps_file_on_failure
                    {[ PARAM_INT := "40"%string ]} false w
                    (or_introl eq_refl))).
  reflexivity.
Defined.

(** X14.  A request whose parameter is empty erases the setpoint on file:
  the file is left empty, [- write failed] is printed, and the next turn
  of the loop of [task_WiFi] prints 0. *)
Theorem on_get_empty_value_erases
  (params : gmap string string) (w : world) :
  let w1 := on_get (<[PARAM_INT := EmptyString]> params) true w in
  spiffs w1 !! INPUT_FILE = Some EmptyString /\
  In (SerialPrintln "- write failed") (drop (List.length (trace w)) (trace w1)) /\
  trace (wifi_cycle w1)
    = trace w1 ++ [SerialPrint "*** Your inputInt: "; SerialPrintlnInt 0;
                   VTaskDelay 5000].
Proof.
  intros w1.
  assert (spiffs w1 !! INPUT_FILE = Some EmptyString) as Hfile.
  { apply on_get_stores. }
  split; [exact Hfile |]. split.
  - subst w1. unfold on_get. rewrite lookup_insert_eq. cbn.
    change (Z.of_nat 0 =? 0) with true. cbn.
    rewrite <- ?app_assoc, drop_app_length. now left.
  - unfold wifi_cycle. rewrite (readFile_found _ _ _ Hfile).
    change (Int.int32 (toInt EmptyString)) with 0.
    cbn. now rewrite <- ?app_assoc.
Qed.

(** X15.  The template processor gives, for the placeholder [inputInt],
  the value the last successful request stored, and the empty string for
  every other placeholder, which it answers without reading anything. *)
Theorem processor_returns_stored_value
  (var v : string) (params : gmap string string) (w : world) :
  var <> "inputInt"%string ->
  processor "inputInt" (on_get (<[PARAM_INT := v]> params) true w)
  = (v, on_get (<[PARAM_INT := v]> params) true w) /\
  processor var w = (EmptyString, w).
Proof.
  intros Hvar. split.
  - unfold processor. cbn [String.eqb Ascii.eqb Bool.eqb].
    apply readFile_found, on_get_stores.
  - unfold processor. destruct (String.eqb_spec var "inputInt");
      [contradiction | reflexivity].
Qed.

Lemma processor_returns_stored_value_witness :
  fst (processor "inputInt" (on_get {[ PARAM_INT := "25"%string ]} true boot))
  = "25"%string /\
  processor "inputFloat" boot = (EmptyString, boot).
Proof.
  assert ("inputFloat"%string <> "inputInt"%string) as Hne by discriminate.
  destruct (processor_returns_stored_value "inputFloat" "25" ∅ boot Hne)
    as [H1 H2].
  split; [| exact H2].
  change ({[ PARAM_INT := "25"%string ]} : gmap string string)
    with (<[PARAM_INT := "25"%string]> (∅ : gmap string string)).
  now rewrite H1.
Defined.

(** X16.  When the volume holds no [/inputInt.txt] a turn of the loop of
  [task_WiFi] prints the diagnostic of [readFile] and then the value 0,
  sleeps 5000 ticks, and creates no file. *)
Theorem wifi_cycle_without_file (w : world) :
  spiffs w !! INPUT_FILE = None ->
  trace (wifi_cycle w)
    = trace w ++ [SerialPrintln "- empty file or failed to open file";
                  SerialPrint "*** Your inputInt: "; SerialPrintlnInt 0;
                  VTaskDelay 5000] /\
  spiffs (wifi_cycle w) = spiffs w.
Proof.
  intros Hnone. unfold wifi_cycle, readFile. rewrite Hnone. cbn.
  rewrite <- ?app_assoc. split; reflexivity.
Qed.

Lemma wifi_cycle_without_file_witness :
  trace (wifi_cycle boot)
  = [SerialPrintln "- empty file or failed to open file";
     SerialPrint "*** Your inputInt: "; SerialPrintlnInt 0;
     VTaskDelay 5000].
Proof. exact (proj1 (wifi_cycle_without_file boot eq_refl)). Defined.

(** ** More on [task_heater] *)

Lemma heater_cycle_trace l w :
  exists c,
    trace (snd (heater_cycle l w))
    = trace w ++ [DigitalWrite HEATER_PIN c; VTaskDelay 100] /\
    c = (if heater_test (fst (heater_cycle l w)) then ON else OFF).
Proof.
  unfold heater_cycle. cbn [fst snd].
  destruct (heater_test _); eexists; cbn; rewrite <- ?app_assoc;
    split; reflexivity.
Qed.

Lemma heater_commands_app a b :
  heater_commands (a ++ b) = heater_commands a ++ heater_commands b.
Proof. apply omap_app. Qed.

Lemma apply_writes_trace xs : forall w, trace (apply_writes xs w) = trace w.
Proof.
  unfold apply_writes.
  induction xs as [| x xs IH]; intros w; [reflexivity |].
  cbn [foldl]. rewrite IH. now destruct x.
Qed.

(** The shares after some writes depend on the shares before only. *)
Lemma apply_writes_shares xs : forall w w',
  desired_temp w = desired_temp w' -> temp_reading w = temp_reading w' ->
  desired_temp (apply_writes xs w) = desired_temp (apply_writes xs w') /\
  temp_reading (apply_writes xs w) = temp_reading (apply_writes xs w').
Proof.
  unfold apply_writes.
  induction xs as [| x xs IH]; intros w w' Hd Ht; [easy |].
  cbn [foldl]. apply IH; destruct x; cbn; congruence.
Qed.

Lemma apply_writes_app xs ys w :
  apply_writes (xs ++ ys) w = apply_writes ys (apply_writes xs w).
Proof. unfold apply_writes. apply foldl_app. Qed.

(** X17.  The heater task keeps no memory: once both shares have been
  written, and whatever [get] does otherwise, the level a turn drives on
  the pin depends on what the two shares hold at that turn and on
  nothing else, neither on the previous command and locals nor on the
  level the pin has. *)
Theorem heater_cycle_has_no_memory
  (get : Share.t -> Z -> Z) (l1 l2 : heater_locals) (w1 w2 : world) :
  fetches_written get ->
  Share.has_value (desired_temp w1) = true ->
  Share.has_value (temp_reading w1) = true ->
  desired_temp w1 = desired_temp w2 ->
  temp_reading w1 = temp_reading w2 ->
  heater_command (heater_cycle_with get l1 w1)
  = heater_command (heater_cycle_with get l2 w2) /\
  fst (heater_cycle_with get l1 w1) = fst (heater_cycle_with get l2 w2) /\
  heater_cycle_with get l1 w1 = heater_cycle l1 w1.
Proof.
  intros Hget Hd1 Ht1 Hd Ht.
  assert (Share.has_value (desired_temp w2) = true) as Hd2 by congruence.
  assert (Share.has_value (temp_reading w2) = true) as Ht2 by congruence.
  rewrite !heater_cycle_with_written by assumption.
  rewrite !heater_command_test, !heater_cycle_locals, Hd, Ht.
  repeat split; reflexivity.
Qed.

(** After a turn that switched the heater on, and from scratch, with a
  [get] that copies nothing from an unwritten share. *)
Lemma heater_cycle_has_no_memory_witness :
  let r := heater_cycle_with get_if_written heater_init
             (apply_writes [WriteSetpoint 20; WriteReading 5] boot) in
  let w1 := apply_writes [WriteReading 15] (snd r) in
  let w2 := apply_writes [WriteSetpoint 20; WriteReading 15] boot in
  heater_command r = Some ON /\
  heater_command (heater_cycle_with get_if_written (fst r) w1)
  = heater_command (heater_cycle_with get_if_written heater_init w2).
Proof.
  intros r w1 w2. split; [reflexivity |].
  exact (proj1 (heater_cycle_has_no_memory get_if_written
                  (fst r) heater_init w1 w2
                  (proj2 get_fetches_written)
                  eq_refl eq_refl eq_refl eq_refl)).
Defined.

Lemma heater_loop_spec env : forall l w,
  desired_temp (snd (heater_loop env l w))
    = desired_temp (apply_writes (List.concat env) w) /\
  temp_reading (snd (heater_loop env l w))
    = temp_reading (apply_writes (List.concat env) w) /\
  exists cmds,
    heater_commands (trace (snd (heater_loop env l w)))
      = heater_commands (trace w) ++ cmds /\
    List.length cmds = List.length env /\
    Forall (fun c => c = ON \/ c = OFF) cmds.
Proof.
  induction env as [| xs env IH]; intros l w.
  - cbn. split; [reflexivity |]. split; [reflexivity |].
    exists []. now rewrite app_nil_r.
  - cbn [heater_loop List.concat].
    destruct (heater_cycle l (apply_writes xs w)) as [l1 w1] eqn:Hcyc.
    destruct (IH l1 w1) as (Hd & Ht & cmds & Hcmds & Hlen & Hall).
    destruct (heater_cycle_shares l (apply_writes xs w)) as [Hd1 Ht1].
    destruct (heater_cycle_trace l (apply_writes xs w)) as (c & Htr & Hc).
    rewrite Hcyc in Hd1, Ht1, Htr. cbn [snd] in Hd1, Ht1, Htr.
    rewrite apply_writes_app.
    destruct (apply_writes_shares (List.concat env) w1 (apply_writes xs w)
                Hd1 Ht1) as [Hd2 Ht2].
    split; [congruence |]. split; [congruence |].
    exists (c :: cmds). split; [| split].
    + rewrite Hcmds, Htr, apply_writes_trace, heater_commands_app.
      cbn. now rewrite <- app_assoc.
    + cbn. now rewrite Hlen.
    + constructor; [| exact Hall].
      rewrite Hc. destruct (heater_test _); auto.
Qed.

(** X18.  The heater task only reads the shares: after any number of
  turns they hold what the writes made by others left in them; and each
  turn writes the heater pin exactly once, with level 1 or 0. *)
Theorem task_heater_reads_only (env : list (list write)) (w : world) :
  desired_temp (snd (task_heater env w))
    = desired_temp (apply_writes (List.concat env) w) /\
  temp_reading (snd (task_heater env w))
    = temp_reading (apply_writes (List.concat env) w) /\
  exists cmds,
    heater_commands (trace (snd (task_heater env w)))
      = heater_commands (trace w) ++ cmds /\
    List.length cmds = List.length env /\
    Forall (fun c => c = ON \/ c = OFF) cmds.
Proof.
  unfold task_heater.
  destruct (heater_loop_spec env heater_init
              (emit (PinMode HEATER_PIN OUTPUT) w))
    as (Hd & Ht & cmds & Hcmds & Hlen & Hall).
  destruct (apply_writes_shares (List.concat env)
              (emit (PinMode HEATER_PIN OUTPUT) w) w eq_refl eq_refl)
    as [Hd1 Ht1].
  split; [congruence |]. split; [congruence |].
  exists cmds. split; [| split; assumption].
  rewrite Hcmds. cbn [emit trace]. rewrite heater_commands_app. cbn.
  now rewrite app_nil_r.
Qed.

(** X19.  The decision is monotone: if a turn switches the heater on,
  so does any turn with a reading that is not higher and a setpoint that
  is not lower. *)
Theorem heater_command_monotone (l1 l2 : heater_locals) (w1 w2 : world) :
  Share.wf (desired_temp w1) -> Share.wf (desired_temp w2) ->
  Share.the_data (temp_reading w2) <= Share.the_data (temp_reading w1) ->
  Share.the_data (desired_temp w1) <= Share.the_data (desired_temp w2) ->
  heater_command (heater_cycle l1 w1) = Some ON ->
  heater_command (heater_cycle l2 w2) = Some ON.
Proof.
  intros Hwf1 Hwf2 Hr Hs Hon.
  apply (heater_command_spec l1 w1 Hwf1) in Hon.
  apply (heater_command_spec l2 w2 Hwf2). lia.
Qed.

Lemma heater_command_monotone_witness :
  heater_command
    (heater_cycle heater_init
       (apply_writes [WriteSetpoint 25; WriteReading 3] boot)) = Some ON.
Proof.
  apply (heater_command_monotone heater_init heater_init
           (apply_writes [WriteSetpoint 20; WriteReading 5] boot)
           (apply_writes [WriteSetpoint 25; WriteReading 3] boot)).
  - cbv. split; discriminate.
  - cbv. split; discriminate.
  - cbv. discriminate.
  - cbv. discriminate.
  - reflexivity.
Defined.

(** X20.  [setpoint - THRESHOLD] is computed in [int] and does not wrap:
  with a setpoint of -32758 or less no 16-bit reading is below it, and
  the heater is switched off whatever the reading. *)
Theorem heater_off_at_lowest_setpoints (l : heater_locals) (w : world) :
  Share.wf (desired_temp w) -> Share.wf (temp_reading w) ->
  Share.the_data (desired_temp w) <= -32758 ->
  heater_command (heater_cycle l w) = Some OFF.
Proof.
  intros Hd Ht Hlow. apply (heater_command_spec l w Hd).
  unfold Share.wf, Int.in_int16, THRESHOLD in *. lia.
Qed.

Lemma heater_off_at_lowest_setpoints_witness :
  heater_command
    (heater_cycle heater_init
       (apply_writes [WriteSetpoint (-32768); WriteReading (-32768)] boot))
  = Some OFF.
Proof.
  apply heater_off_at_lowest_setpoints.
  - cbv. split; discriminate.
  - cbv. split; discriminate.
  - cbv. discriminate.
Defined.

(** ** More on [task_sensor] *)

Lemma sensor_wait_dots highs : forall levels count w,
  0 <= count <= 201 ->
  sensor_wait (repeat true highs ++ false :: levels) count w
  = Some (log (repeat (SerialPrint ".")
                 (Z.to_nat ((count + Z.of_nat highs) / 202))) w,
          levels).
Proof.
  induction highs as [| highs IH]; intros levels count w Hc.
  - cbn [repeat app sensor_wait].
    replace ((count + Z.of_nat 0) / 202) with 0
      by (symmetry; apply Z.div_small; lia).
    cbn. now rewrite log_nil.
  - cbn [repeat app sensor_wait].
    destruct (Z.gtb_spec count 200) as [Hgt | Hle].
    + rewrite IH by lia. rewrite emit_log, log_log.
      replace (Z.to_nat ((count + Z.of_nat (Datatypes.S highs)) / 202))
        with (Datatypes.S (Z.to_nat ((0 + Z.of_nat highs) / 202)));
        [reflexivity |].
      rewrite <- Z2Nat.inj_succ by (apply Z.div_pos; lia).
      f_equal.
      replace (count + Z.of_nat (Datatypes.S highs))
        with (1 * 202 + (0 + Z.of_nat highs)) by lia.
      rewrite Z.div_add_l by lia. lia.
    + rewrite int32_id by lia. rewrite IH by lia.
      replace (count + 1 + Z.of_nat highs)
        with (count + Z.of_nat (Datatypes.S highs)) by lia.
      reflexivity.
Qed.

(** A turn of the sensor loop, dots counted. *)
Lemma sensor_cycle_dot_count_aux
  (highs : nat) (levels : list bool) (t : float32) (w : world) :
  sensor_cycle (repeat true highs ++ false :: levels) t w
  = Some (log (repeat (SerialPrint ".") (Z.to_nat (Z.of_nat highs / 202))
               ++ [ReadThermocoupleTemperature t; SerialPrintlnFloat t;
                   VTaskDelay 500]) w,
          levels).
Proof.
  unfold sensor_cycle. rewrite sensor_wait_dots by lia.
  rewrite Z.add_0_l, !emit_log, !log_log. reflexivity.
Qed.

(** X21.  While it waits for data-ready the sensor task prints one dot
  for every 202 polls that find the pin high, and nothing else; the turn
  then reads the sample, prints it and sleeps 500 ticks, and leaves the
  files and the pins as they were. *)
Theorem sensor_cycle_dot_count
  (highs : nat) (levels : list bool) (t : float32) (w : world) :
  exists w',
    sensor_cycle (repeat true highs ++ false :: levels) t w
      = Some (w', levels) /\
    trace w'
      = trace w
        ++ repeat (SerialPrint ".") (Z.to_nat (Z.of_nat highs / 202))
        ++ [ReadThermocoupleTemperature t; SerialPrintlnFloat t;
            VTaskDelay 500] /\
    List.length
      (List.filter (fun e => match e with SerialPrint _ => true | _ => false end)
                   (drop (List.length (trace w)) (trace w')))
    = (highs / 202)%nat /\
    spiffs w' = spiffs w /\ gpio w' = gpio w.
Proof.
  eexists. rewrite sensor_cycle_dot_count_aux.
  split; [reflexivity |]. cbn [log trace spiffs gpio].
  split; [reflexivity |]. split; [| split; reflexivity].
  rewrite drop_app_length, List.filter_app, length_app.
  replace (Z.to_nat (Z.of_nat highs / 202)) with (highs / 202)%nat
    by (rewrite <- (Nat2Z.id (highs / 202)), Nat2Z.inj_div; reflexivity).
  generalize (highs / 202)%nat as dots. intros dots.
  induction dots as [| dots IH]; [reflexivity |].
  cbn [repeat List.filter List.length]. cbn in IH. cbn. lia.
Qed.

Lemma sensor_waiting_dots n : forall count w,
  0 <= count <= 201 ->
  sensor_waiting (repeat true n) count w
  = log (repeat (SerialPrint ".") (Z.to_nat ((count + Z.of_nat n) / 202))) w.
Proof.
  induction n as [| n IH]; intros count w Hc.
  - cbn [repeat sensor_waiting].
    replace ((count + Z.of_nat 0) / 202) with 0
      by (symmetry; apply Z.div_small; lia).
    cbn. now rewrite log_nil.
  - cbn [repeat sensor_waiting].
    destruct (Z.gtb_spec count 200) as [Hgt | Hle].
    + rewrite IH by lia. rewrite emit_log, log_log.
      replace (Z.to_nat ((count + Z.of_nat (Datatypes.S n)) / 202))
        with (Datatypes.S (Z.to_nat ((0 + Z.of_nat n) / 202)));
        [reflexivity |].
      rewrite <- Z2Nat.inj_succ by (apply Z.div_pos; lia).
      f_equal.
      replace (count + Z.of_nat (Datatypes.S n))
        with (1 * 202 + (0 + Z.of_nat n)) by lia.
      rewrite Z.div_add_l by lia. lia.
    + rewrite int32_id by lia. rewrite IH by lia.
      replace (count + 1 + Z.of_nat n)
        with (count + Z.of_nat (Datatypes.S n)) by lia.
      reflexivity.
Qed.

(** X22.  The wait has no bound: however many polls find data-ready
  high, the turn is still waiting; all the sensor loop has done by then
  is print one dot for every 202 polls, and no sample has been read or
  printed. *)
Theorem sensor_cycle_waits_forever
  (n : nat) (t : float32) (samples : list float32) (w : world) :
  let w' := sensor_loop (t :: samples) (repeat true n) w in
  sensor_cycle (repeat true n) t w = None /\
  trace w' = trace w
             ++ repeat (SerialPrint ".") (Z.to_nat (Z.of_nat n / 202)) /\
  samples_read (trace w') = samples_read (trace w) /\
  samples_printed (trace w') = samples_printed (trace w).
Proof.
  intros w'.
  assert (forall c w0, sensor_wait (repeat true n) c w0 = None) as Hwait.
  { induction n as [| k IH]; intros c w0; [reflexivity |].
    cbn [repeat sensor_wait]. now destruct (c >? 200). }
  assert (sensor_cycle (repeat true n) t w = None) as Hcyc
    by (unfold sensor_cycle; now rewrite Hwait).
  assert (trace w' = trace w
             ++ repeat (SerialPrint ".") (Z.to_nat (Z.of_nat n / 202)))
    as Htr.
  { subst w'. cbn [sensor_loop]. rewrite Hcyc.
    rewrite sensor_waiting_dots by lia. now rewrite Z.add_0_l. }
  split; [exact Hcyc |]. split; [exact Htr |].
  rewrite Htr. unfold samples_read, samples_printed. rewrite !omap_app.
  assert (forall d, omap (fun e => match e with
                                   | ReadThermocoupleTemperature x => Some x
                                   | _ => None
                                   end) (repeat (SerialPrint ".") d) = []
                    /\ omap (fun e => match e with
                                      | SerialPrintlnFloat x => Some x
                                      | _ => None
                                      end) (repeat (SerialPrint ".") d) = [])
    as Hdots.
  { induction d as [| d IH]; [split; reflexivity | exact IH]. }
  destruct (Hdots (Z.to_nat (Z.of_nat n / 202))) as [-> ->].
  now rewrite !app_nil_r.
Qed.

Lemma samples_read_log evs w :
  samples_read (trace (log evs w))
  = samples_read (trace w) ++ samples_read evs.
Proof. unfold samples_read. cbn. apply omap_app. Qed.

Lemma samples_printed_log evs w :
  samples_printed (trace (log evs w))
  = samples_printed (trace w) ++ samples_printed evs.
Proof. unfold samples_printed. cbn. apply omap_app. Qed.

Lemma samples_of_turn dots t :
  samples_read (repeat (SerialPrint ".") dots
                ++ [ReadThermocoupleTemperature t; SerialPrintlnFloat t;
                    VTaskDelay 500]) = [t] /\
  samples_printed (repeat (SerialPrint ".") dots
                   ++ [ReadThermocoupleTemperature t; SerialPrintlnFloat t;
                       VTaskDelay 500]) = [t].
Proof.
  unfold samples_read, samples_printed. rewrite !omap_app.
  induction dots as [| dots IH]; [split; reflexivity | exact IH].
Qed.

(** X23.  When data-ready goes low once for every sample, the sensor loop
  reads every sample exactly once, in order, and prints each one it
  reads. *)
Theorem sensor_loop_reads_in_order
  (samples : list float32) (highs : list nat) (w : world) :
  List.length highs = List.length samples ->
  let w' := sensor_loop samples (drdy_levels highs) w in
  samples_read (trace w') = samples_read (trace w) ++ samples /\
  samples_printed (trace w') = samples_printed (trace w) ++ samples.
Proof.
  revert highs w.
  induction samples as [| t samples IH]; intros highs w Hlen w'.
  - subst w'. cbn. now rewrite !app_nil_r.
  - destruct highs as [| h highs]; [discriminate |].
    subst w'. unfold drdy_levels. cbn [List.map List.concat sensor_loop].
    rewrite <- app_assoc. cbn [app].
    rewrite sensor_cycle_dot_count_aux.
    fold (drdy_levels highs).
    destruct (IH highs
                (log (repeat (SerialPrint ".") (Z.to_nat (Z.of_nat h / 202))
                      ++ [ReadThermocoupleTemperature t;
                          SerialPrintlnFloat t; VTaskDelay 500]) w))
      as [Hr Hp]; [cbn in Hlen; lia |].
    cbn zeta in Hr, Hp. rewrite Hr, Hp.
    rewrite samples_read_log, samples_printed_log.
    destruct (samples_of_turn (Z.to_nat (Z.of_nat h / 202)) t) as [-> ->].
    rewrite <- !app_assoc. split; reflexivity.
Qed.

Lemma sensor_loop_reads_in_order_witness :
  samples_read
    (trace (sensor_loop [11; 22; 33] (drdy_levels [0; 300; 2]%nat) boot))
  = [11; 22; 33].
Proof.
  exact (proj1 (sensor_loop_reads_in_order [11; 22; 33] [0; 300; 2]%nat boot
                  eq_refl)).
Defined.

(** ** The three tasks side by side *)

Lemma wifi_step_trace i w :
  exists evs,
    trace (wifi_step i w) = trace w ++ evs /\ heater_commands evs = [].
Proof.
  destruct i as [params open_ok |]; cbn [wifi_step].
  - unfold on_get. destruct (params !! PARAM_INT) as [v |].
    + unfold writeFile. destruct open_ok; cbn [negb].
      * destruct (_ =? 0); eexists; cbn; rewrite <- ?app_assoc;
          split; reflexivity.
      * eexists; cbn; rewrite <- ?app_assoc; split; reflexivity.
    + eexists; cbn; rewrite <- ?app_assoc; split; reflexivity.
  - unfold wifi_cycle, readFile.
    destruct (spiffs w !! INPUT_FILE); eexists; cbn; rewrite <- ?app_assoc;
      split; reflexivity.
Qed.

Lemma heater_commands_dots dots :
  heater_commands (repeat (SerialPrint ".") dots) = [].
Proof. induction dots as [| dots IH]; [reflexivity | exact IH]. Qed.

(** One step of the system: the shares stay, and the heater pin is
  written by the heater task only, with what the shares decide. *)
Lemma sys_step_spec x s :
  desired_temp (snd (sys_step x s)) = desired_temp (snd s) /\
  temp_reading (snd (sys_step x s)) = temp_reading (snd s) /\
  heater_commands (trace (snd (sys_step x s)))
  = heater_commands (trace (snd s))
    ++ match x with
       | HeaterTurn =>
           [if heater_test (mk_locals (Share.the_data (desired_temp (snd s)))
                                      (Share.the_data (temp_reading (snd s))))
            then ON else OFF]
       | _ => []
       end.
Proof.
  destruct x as [| highs t | i]; cbn [sys_step].
  - destruct (heater_cycle_shares (fst s) (snd s)) as [-> ->].
    destruct (heater_cycle_trace (fst s) (snd s)) as (c & -> & ->).
    rewrite heater_cycle_locals, heater_commands_app.
    split; [reflexivity |]. split; reflexivity.
  - rewrite sensor_cycle_dot_count_aux. cbn [snd log desired_temp
      temp_reading trace].
    rewrite heater_commands_app, heater_commands_app, heater_commands_dots.
    split; [reflexivity |]. split; reflexivity.
  - cbn [snd]. destruct i as [params open_ok |]; cbn [wifi_step].
    + destruct (on_get_shares params open_ok (snd s)) as [-> ->].
      destruct (wifi_step_trace (Request params open_ok) (snd s))
        as (evs & Htr & Hev). cbn [wifi_step] in Htr.
      rewrite Htr, heater_commands_app, Hev. split; [reflexivity |].
      split; reflexivity.
    + destruct (wifi_cycle_shares (snd s)) as [-> ->].
      destruct (wifi_step_trace Tick (snd s)) as (evs & Htr & Hev).
      cbn [wifi_step] in Htr.
      rewrite Htr, heater_commands_app, Hev. split; [reflexivity |].
      split; reflexivity.
Qed.

Lemma system_run_spec xs : forall s,
  desired_temp (snd (system_run xs s)) = desired_temp (snd s) /\
  temp_reading (snd (system_run xs s)) = temp_reading (snd s) /\
  heater_commands (trace (snd (system_run xs s)))
  = heater_commands (trace (snd s))
    ++ repeat (if heater_test
                    (mk_locals (Share.the_data (desired_temp (snd s)))
                               (Share.the_data (temp_reading (snd s))))
               then ON else OFF)
              (heater_turns xs).
Proof.
  unfold system_run, heater_turns.
  induction xs as [| x xs IH]; intros s.
  - cbn. now rewrite app_nil_r.
  - cbn [foldl]. destruct (IH (sys_step x s)) as (Hd & Ht & Hc).
    destruct (sys_step_spec x s) as (Hd1 & Ht1 & Hc1).
    rewrite Hd, Ht, Hc, Hd1, Ht1, Hc1.
    split; [reflexivity |]. split; [reflexivity |].
    rewrite <- app_assoc. f_equal.
    destruct x; reflexivity.
Qed.

(** X24.  No task of the program writes a share: however the turns of
  the heater and sensor loops, the requests served and the turns of the
  WiFi loop follow one another, [desired_temp] and [temp_reading] hold at
  the end what they held at the start, and every turn of the heater loop
  has driven the pin with one and the same level. *)
Theorem system_never_writes_shares
  (xs : list sys_input) (s : heater_locals * world) :
  desired_temp (snd (system_run xs s)) = desired_temp (snd s) /\
  temp_reading (snd (system_run xs s)) = temp_reading (snd s) /\
  exists c,
    heater_commands (trace (snd (system_run xs s)))
    = heater_commands (trace (snd s)) ++ repeat c (heater_turns xs).
Proof.
  destruct (system_run_spec xs s) as (Hd & Ht & Hc).
  split; [exact Hd |]. split; [exact Ht |]. eexists. exact Hc.
Qed.
